(** * brightsparc/segment: dispatcher, sinks and supervisor

    A shallow embedding of the Go package [segment]:
    - [segment.go]: the HTTP handlers [handleBatch] and [handleEvent], the
      fan-out [send] and the supervisor [Run] (the file carries two
      revisions of [Run]; both are embedded, in [RunBacko] and [RunDone]);
    - the firehose sink [Delivery] ([NewDelivery], [Connect], [Process],
      [Send]);
    - the forwarding sink [Forwarder] ([NewForwarder], [Process], [Send]);
    - the [Destination] interface.

    Conventions.  A Go [error] is [option error], [None] being [nil].  A
    nillable map is [option (gmap string JValue)].  Goroutines are
    modelled by the sequence of choices the Go scheduler makes for them:
    a run loop consumes a schedule of [select] outcomes and of concurrent
    [Send] calls; a [select] whose outcome the scheduler picks yields the
    list of its possible outcomes.  Libraries outside the package
    (encoding/json, the firehose client, net/http, time, uuid) are the
    fields of the record [Runtime]. *)

From Stdlib Require Import ZArith Lia.
From stdpp Require Import base option list strings gmap.

Set Default Proof Using "Type".

(** ** Data model (segment.go, second revision, lines 248-279) *)

(** An untyped JSON value, as [interface{}] holds it after decoding. *)
#[local] Set Warnings "-register-all".
Inductive JValue : Type :=
| JNull
| JBool (b : bool)
| JNum (z : Z)
| JStr (s : string)
| JArr (l : list JValue)
| JObj (l : list (string * JValue)).
#[local] Set Warnings "register-all".

(** [time.Time], as an instant in nanoseconds; [time.Time{}] is [0]. *)
Definition Time : Type := Z.
Definition time_zero : Time := 0%Z.

Record SegmentMessage : Type := mkSegmentMessage {
  MessageId : string;
  Timestamp : Time;
  SentAt : Time;
  ProjectId : string;
  Type_ : string;
  Context : option (gmap string JValue);
  Properties : option (gmap string JValue);
  Traits : option (gmap string JValue);
  Integrations : option (gmap string JValue);
  AnonymousId : string;
  UserId : string;
  Event : string;
  Category : string;
  Name : string
}.

Record SegmentBatch : Type := mkSegmentBatch {
  batch_MessageId : string;
  batch_Timestamp : Time;
  batch_SentAt : Time;
  batch_Context : option (gmap string JValue);
  Messages : list SegmentMessage
}.

(** [SegmentEvent] embeds [SegmentMessage]. *)
Record SegmentEvent : Type := mkSegmentEvent {
  WriteKey : string;
  Message : SegmentMessage
}.

(** The zero value of [SegmentMessage] with only [Type] set, as in
    [SegmentMessage{Type: vars["event"]}]. *)
Definition message_of_type (ty : string) : SegmentMessage :=
  mkSegmentMessage EmptyString time_zero time_zero EmptyString ty
    None None None None EmptyString EmptyString EmptyString EmptyString
    EmptyString.

(** Field assignments [event.F = v] through the embedded message. *)
Definition set_MessageId (v : string) (e : SegmentEvent) : SegmentEvent :=
  let m := Message e in
  mkSegmentEvent (WriteKey e)
    (mkSegmentMessage v (Timestamp m) (SentAt m) (ProjectId m) (Type_ m)
       (Context m) (Properties m) (Traits m) (Integrations m)
       (AnonymousId m) (UserId m) (Event m) (Category m) (Name m)).

Definition set_Timestamp (v : Time) (e : SegmentEvent) : SegmentEvent :=
  let m := Message e in
  mkSegmentEvent (WriteKey e)
    (mkSegmentMessage (MessageId m) v (SentAt m) (ProjectId m) (Type_ m)
       (Context m) (Properties m) (Traits m) (Integrations m)
       (AnonymousId m) (UserId m) (Event m) (Category m) (Name m)).

Definition set_SentAt (v : Time) (e : SegmentEvent) : SegmentEvent :=
  let m := Message e in
  mkSegmentEvent (WriteKey e)
    (mkSegmentMessage (MessageId m) (Timestamp m) v (ProjectId m) (Type_ m)
       (Context m) (Properties m) (Traits m) (Integrations m)
       (AnonymousId m) (UserId m) (Event m) (Category m) (Name m)).

Definition set_ProjectId (v : string) (e : SegmentEvent) : SegmentEvent :=
  let m := Message e in
  mkSegmentEvent (WriteKey e)
    (mkSegmentMessage (MessageId m) (Timestamp m) (SentAt m) v (Type_ m)
       (Context m) (Properties m) (Traits m) (Integrations m)
       (AnonymousId m) (UserId m) (Event m) (Category m) (Name m)).

Definition set_Context (v : option (gmap string JValue)) (e : SegmentEvent)
  : SegmentEvent :=
  let m := Message e in
  mkSegmentEvent (WriteKey e)
    (mkSegmentMessage (MessageId m) (Timestamp m) (SentAt m) (ProjectId m)
       (Type_ m) v (Properties m) (Traits m) (Integrations m)
       (AnonymousId m) (UserId m) (Event m) (Category m) (Name m)).

(** A value of type [interface{}] handed to a sink: the dispatcher always
    hands a [SegmentEvent], other callers may hand anything. *)
Inductive Msg : Type :=
| MsgEvent (e : SegmentEvent)
| MsgOther (v : JValue).

(** ** Errors and contexts *)

Inductive error : Type :=
| Canceled                                   (* context.Canceled *)
| DeadlineExceeded                           (* context.DeadlineExceeded *)
| ErrNotReady (stream endpoint : string)     (* Delivery.Send, line 200 *)
| ErrStream (cause : error)                  (* Connect, line 122 *)
| ErrMarshal (cause : error)                 (* Process, line 172 *)
| ErrSending (cause : error)                 (* Process/send, line 153 *)
| ErrExpectedEvent                           (* Forwarder.send, line 112 *)
| ErrForward (cause : error)                 (* Forwarder.send, line 139 *)
| ErrResponse (status : Z) (body : string)   (* Forwarder.send, line 149 *)
| ErrLib (msg : string).                     (* an error of a library *)

(** A [context.Context] as its holder sees it during one call:
    [ctx_timeout] is the deadline it was built with, if any, and
    [ctx_cancelled] tells whether its cancel function has been called.
    The Done channel of a context with a deadline may be closed at any
    time of the call; without one it is closed only by cancellation. *)
Record Ctx : Type := mkCtx {
  ctx_timeout : option Z;
  ctx_cancelled : bool
}.

Definition ctx_may_be_done (c : Ctx) : bool :=
  ctx_cancelled c || bool_decide (is_Some (ctx_timeout c)).

Definition ctx_Err (c : Ctx) : error :=
  if ctx_cancelled c then Canceled else DeadlineExceeded.

(** ** The Destination interface (delivery_test.go, lines 33-37) *)

(** What a call of [Send] does: it returns an error value, or it stays
    parked in its [select] (nothing it waits for is ready). *)
Inductive SendResult : Type :=
| Returns (err : option error)
| Blocks.

(** What a call of [Process] does under a finite schedule: it returns, it
    is still in its loop when the schedule ends, or it panics. *)
Inductive ProcessResult : Type :=
| ProcReturns (err : option error)
| ProcRunning
| ProcPanics.

(** [Send] lists the outcomes the scheduler may pick for the call.
    [Process] runs under a schedule of type [Schedule]; it is [None] when
    the schedule asks for a step that is not enabled. *)
Class Destination (D : Type) : Type := {
  Schedule : Type;
  Process : Schedule -> D -> option (D * ProcessResult);
  Send : Ctx -> Msg -> D -> list (D * SendResult)
}.

(** An interface value: a sink of some type implementing [Destination]. *)
Record Dest : Type := mkDest {
  dest_type : Type;
  dest_impl : Destination dest_type;
  dest_state : dest_type
}.

Definition dest_with (d : Dest) (st : dest_type d) : Dest :=
  mkDest (dest_type d) (dest_impl d) st.

Definition dest_Send (ctx : Ctx) (m : Msg) (d : Dest)
  : list (Dest * SendResult) :=
  (fun o => (dest_with d (fst o), snd o))
    <$> @Send _ (dest_impl d) ctx m (dest_state d).

(** ** Libraries outside the package *)

(** The results of the firehose client. *)
Inductive DescribeResult : Type :=
| DescribeFound (arn : string)
| DescribeError (resourceNotFound : bool) (e : error).

Inductive CreateResult : Type :=
| CreateDone (arn : string)
| CreateError (e : error).

Inductive PutResult : Type :=
| PutDone (failedPutCount : Z)
| PutError (e : error).

(** The reply to one outbound HTTP call of the forwarder: the transport
    fails, or a response arrives whose body reads (or fails to). *)
Inductive HttpReply : Type :=
| HttpTransportError (e : error)
| HttpResponse (status : Z) (body : error + string).

(** [firehose.Record]. *)
Record FhRecord : Type := mkRecord { Data : string }.

(** The request body type and the library functions the package calls.
    [time_Now] and [uuid_NewRandom] are indexed by the number of earlier
    calls, the firehose and HTTP replies by the number of earlier calls
    of the same sink.  [aws_Endpoint region endpoint] is the endpoint the
    firehose client resolves; [http_Do n url user body] is the reply to
    the POST of [body] to [url] with basic-auth user [user]. *)
Record Runtime : Type := mkRuntime {
  Body : Type;
  json_DecodeBatch : Body -> option SegmentBatch;
  json_DecodeEvent : Body -> SegmentEvent -> option SegmentEvent;
  base64_DecodeString : string -> option Body;
  time_ParseDuration : string -> option Z;
  time_Now : nat -> Time;
  uuid_NewRandom : nat -> string;
  json_Marshal : Msg -> error + string;
  json_MarshalBatch : SegmentBatch -> error + string;
  aws_Endpoint : string -> string -> string;
  fh_DescribeDeliveryStream : string -> DescribeResult;
  fh_CreateDeliveryStream : string -> CreateResult;
  fh_PutRecordBatch : nat -> string -> list (option FhRecord) -> PutResult;
  http_NewRequest : string -> option error;
  http_Do : nat -> string -> string -> string -> HttpReply
}.

(** ** The dispatcher (segment.go) *)

(** [backo.Backo]: base delay, factor and cap, in nanoseconds. *)
Record Backo : Type := mkBacko {
  backo_base : Z;
  backo_factor : Z;
  backo_cap : Z
}.

Record Segment : Type := mkSegment {
  projectId : string -> string;
  destinations : list Dest;
  backo : Backo;
  backoRetry : nat
}.

Definition with_destinations (ds : list Dest) (s : Segment) : Segment :=
  mkSegment (projectId s) ds (backo s) (backoRetry s).

(** One invocation of a destination's [Send]: its position in
    [destinations] and its arguments. *)
Record Call : Type := mkCall {
  call_dest : nat;
  call_ctx : Ctx;
  call_msg : Msg
}.

(** The state the handlers thread: the reads of the clock and of the
    random source so far, and the log of [Send] invocations. *)
Record World : Type := mkWorld {
  clock_reads : nat;
  uuid_reads : nat;
  calls : list Call
}.

Definition world0 : World := mkWorld 0 0 [].

Definition log_calls (cs : list Call) (w : World) : World :=
  mkWorld (clock_reads w) (uuid_reads w) (calls w ++ cs).

(** net/http status codes. *)
Definition StatusOK : Z := 200.
Definition StatusBadRequest : Z := 400.
Definition StatusUnauthorized : Z := 401.
Definition StatusInternalServerError : Z := 500.

(** The response written by a handler: the status code, and the value of
    the [success] member of the JSON body. *)
Record Response : Type := mkResponse {
  status : Z;
  success : bool
}.

(** [http.Error(w, `{ "success": false }`, code)]. *)
Definition http_Error (code : Z) : Response := mkResponse code false.

Section Dispatcher.
Variable rt : Runtime.

(** The part of [*http.Request] the handlers read. *)
Record Request : Type := mkRequest {
  Method : string;
  req_Body : Body rt;
  BasicAuth : option (string * string);
  FormValue : string -> string;
  Vars : string -> string
}.

(** segment.go, lines 156-163. *)
Definition contextTimeout (r : Request) : Ctx :=
  match time_ParseDuration rt (FormValue r "timeout") with
  | Some timeout => mkCtx (Some timeout) false
  | None => mkCtx None false
  end.

(** The loop of [send], lines 175-179: [k] is the position of the head
    of [ds] in [s.destinations].  An outcome is the destinations after
    the calls, the calls made, and what the loop does. *)
Fixpoint send_loop (ctx : Ctx) (m : Msg) (k : nat) (ds : list Dest)
  : list (list Dest * list Call * SendResult) :=
  match ds with
  | [] => [([], [], Returns None)]
  | dest :: rest =>
      o ← dest_Send ctx m dest;
      match o.2 with
      | Returns None =>
          (fun r => (o.1 :: r.1.1, mkCall k ctx m :: r.1.2, r.2))
            <$> send_loop ctx m (S k) rest
      | res => [(o.1 :: rest, [mkCall k ctx m], res)]
      end
  end.

(** segment.go, lines 165-182. *)
Definition send (s : Segment) (ctx : Ctx) (m : SegmentEvent) (w : World)
  : list (Segment * World * SendResult) :=
  let '(m, w) :=
    if decide (Timestamp (Message m) = time_zero)
    then (set_Timestamp (time_Now rt (clock_reads w)) m,
          mkWorld (S (clock_reads w)) (uuid_reads w) (calls w))
    else (m, w) in
  let m := set_SentAt (time_Now rt (clock_reads w)) m in
  let w := mkWorld (S (clock_reads w)) (uuid_reads w) (calls w) in
  let '(m, w) :=
    if decide (MessageId (Message m) = EmptyString)
    then (set_MessageId (uuid_NewRandom rt (uuid_reads w)) m,
          mkWorld (clock_reads w) (S (uuid_reads w)) (calls w))
    else (m, w) in
  (fun r => (with_destinations r.1.1 s, log_calls r.1.2 w, r.2))
    <$> send_loop ctx (MsgEvent m) 0 (destinations s).

(** The loop of [handleBatch], lines 89-101.  The response is [None]
    when a [Send] stays parked, so that the handler has not answered. *)
Fixpoint handleBatch_loop (s : Segment) (ctx : Ctx) (writeKey : string)
    (pid : string) (batchContext : option (gmap string JValue))
    (ms : list SegmentMessage) (w : World)
  : list (Segment * World * option Response) :=
  match ms with
  | [] => [(s, w, Some (mkResponse StatusOK true))]
  | m :: rest =>
      let event := mkSegmentEvent writeKey m in
      let event := set_ProjectId pid event in
      let event := set_Context batchContext event in
      o ← send s ctx event w;
      match o.2 with
      | Returns None =>
          handleBatch_loop o.1.1 ctx writeKey pid batchContext rest o.1.2
      | Returns (Some err) =>
          [(o.1.1, o.1.2, Some (http_Error StatusInternalServerError))]
      | Blocks => [(o.1.1, o.1.2, None)]
      end
  end.

(** segment.go, lines 60-104. *)
Definition handleBatch (s : Segment) (r : Request) (w : World)
  : list (Segment * World * option Response) :=
  match json_DecodeBatch rt (req_Body r) with
  | None => [(s, w, Some (http_Error StatusBadRequest))]
  | Some batch =>
      match BasicAuth r with
      | None => [(s, w, Some (http_Error StatusUnauthorized))]
      | Some (writeKey, _) =>
          let pid := projectId s writeKey in
          if decide (pid = EmptyString)
          then [(s, w, Some (http_Error StatusUnauthorized))]
          else
            let ctx := contextTimeout r in
            handleBatch_loop s ctx writeKey pid (batch_Context batch)
              (Messages batch) w
      end
  end.

(** segment.go, lines 106-154. *)
Definition handleEvent (s : Segment) (r : Request) (w : World)
  : list (Segment * World * option Response) :=
  let body :=
    if decide (Method r = "GET")
    then base64_DecodeString rt (FormValue r "data")
    else Some (req_Body r) in
  match body with
  | None => [(s, w, Some (http_Error StatusBadRequest))]
  | Some body =>
      let writeKey :=
        match BasicAuth r with
        | Some (user, _) => user
        | None => EmptyString
        end in
      let event := mkSegmentEvent writeKey (message_of_type (Vars r "event")) in
      match json_DecodeEvent rt body event with
      | None => [(s, w, Some (http_Error StatusBadRequest))]
      | Some event =>
          let event := set_ProjectId (projectId s (WriteKey event)) event in
          if decide (ProjectId (Message event) = EmptyString)
          then [(s, w, Some (http_Error StatusBadRequest))]
          else
            let ctx := contextTimeout r in
            o ← send s ctx event w;
            match o.2 with
            | Returns None => [(o.1.1, o.1.2, Some (mkResponse StatusOK true))]
            | Returns (Some err) =>
                [(o.1.1, o.1.2, Some (http_Error StatusInternalServerError))]
            | Blocks => [(o.1.1, o.1.2, None)]
            end
      end
  end.

End Dispatcher.

Arguments Method {rt} _.
Arguments req_Body {rt} _.
Arguments BasicAuth {rt} _.
Arguments FormValue {rt} _ _.
Arguments Vars {rt} _ _.

(** ** Channels *)

(** A channel of [interface{}]: its capacity and the values buffered, the
    oldest first.  Capacity 0 is an unbuffered channel: a send proceeds
    only by handing the value to a goroutine parked at a receive. *)
Record Chan : Type := mkChan {
  ch_cap : nat;
  ch_buf : list Msg
}.

(** [make(chan interface{}, n)] and [make(chan interface{})]. *)
Definition make_chan (n : nat) : Chan := mkChan n [].

Definition chan_has_room (c : Chan) : bool :=
  bool_decide (length (ch_buf c) < ch_cap c).

Definition chan_push (m : Msg) (c : Chan) : Chan :=
  mkChan (ch_cap c) (ch_buf c ++ [m]).

(** Runs a loop under a schedule: [step] is one iteration, which goes on
    ([None]) or ends the call with a result. *)
Fixpoint run_schedule {S A : Type}
    (step : A -> S -> option (S * option ProcessResult))
    (sched : list A) (s : S) : option (S * ProcessResult) :=
  match sched with
  | [] => Some (s, ProcRunning)
  | a :: sched' =>
      match step a s with
      | None => None
      | Some (s', Some r) => Some (s', r)
      | Some (s', None) => run_schedule step sched' s'
      end
  end.

(** ** The firehose sink ([Delivery]) *)

Record DeliveryConfig : Type := mkDeliveryConfig {
  StreamEndpoint : string;
  StreamRegion : string;
  StreamName : string;
  BatchSize : Z;
  FlushInterval : Z
}.

(** The struct [Delivery]; [fh_Endpoint] is [d.fh.Endpoint]. *)
Record Delivery : Type := mkDelivery {
  fh_Endpoint : string;
  streamName : string;
  size : Z;
  flushInterval : Z;
  messages : option Chan
}.

(** The goroutine inside [Process]: not there, at the [select] of the
    loop with its locals [records] and [i], or gone in a panic. *)
Inductive DeliveryLoop : Type :=
| LoopIdle
| LoopRunning (records : list (option FhRecord)) (i : nat)
| LoopPanicked.

(** A firehose sink: the struct, its run loop, the arguments of the
    [PutRecordBatch] calls made so far, and the counters
    [delivery_success_total] and [delivery_failure_total] of its stream. *)
Record DeliverySink : Type := mkDeliverySink {
  dv : Delivery;
  dv_loop : DeliveryLoop;
  dv_puts : list (list (option FhRecord));
  dv_success : Z;
  dv_failure : Z
}.

Definition set_messages (c : option Chan) (s : DeliverySink) : DeliverySink :=
  let d := dv s in
  mkDeliverySink
    (mkDelivery (fh_Endpoint d) (streamName d) (size d) (flushInterval d) c)
    (dv_loop s) (dv_puts s) (dv_success s) (dv_failure s).

Definition set_loop (l : DeliveryLoop) (s : DeliverySink) : DeliverySink :=
  mkDeliverySink (dv s) l (dv_puts s) (dv_success s) (dv_failure s).

Definition second : Z := 1000000000.
Definition millisecond : Z := 1000000.

Definition newline : string := String (Ascii.ascii_of_nat 10) EmptyString.

(** The [select] cases of the run loop, and the steps of its schedule: a
    concurrent [Send] that places its message, or one turn of the loop
    with the case the scheduler picks. *)
Inductive Pick : Type := PickMessage | PickDone | PickTimer.

Inductive DeliveryStep : Type :=
| Accept (m : Msg)
| Select (p : Pick).

Section DeliverySection.
Variable rt : Runtime.

(** Delivery source, lines 62-88.  [None] is [log.Fatal]. *)
Definition NewDelivery (config : DeliveryConfig) : option Delivery :=
  if decide (StreamRegion config = EmptyString
             \/ StreamName config = EmptyString)
  then None
  else
    let batchSize :=
      if decide (BatchSize config <= 0 \/ BatchSize config > 500)%Z
      then 500%Z else BatchSize config in
    let flushInterval :=
      if decide (FlushInterval config = 0)%Z
      then (second * 30)%Z else FlushInterval config in
    Some (mkDelivery
            (aws_Endpoint rt (StreamRegion config) (StreamEndpoint config))
            (StreamName config) batchSize flushInterval None).

(** A sink as [NewDelivery] leaves it: no run loop, nothing sent. *)
Definition new_sink (d : Delivery) : DeliverySink :=
  mkDeliverySink d LoopIdle [] 0 0.

(** Delivery source, lines 99-123. *)
Definition Connect (d : Delivery) : option error :=
  match fh_DescribeDeliveryStream rt (streamName d) with
  | DescribeFound _ => None
  | DescribeError resourceNotFound err =>
      if resourceNotFound
      then match fh_CreateDeliveryStream rt (streamName d) with
           | CreateDone _ => None
           | CreateError err => Some (ErrStream err)
           end
      else Some (ErrStream err)
  end.

(** The closure [send] of [Process], lines 138-163.  The counters are
    kept as integers: a reply whose count of failed records is negative
    or exceeds the batch, on which the counters of the metrics library
    panic, is not told apart from the others. *)
Definition Process_send (records : list (option FhRecord)) (i : nat)
    (s : DeliverySink) : DeliverySink * option error :=
  if decide (i = 0) then (s, None)
  else
    let batch := take i records in
    match fh_PutRecordBatch rt (length (dv_puts s)) (streamName (dv s)) batch with
    | PutError err =>
        (mkDeliverySink (dv s) (dv_loop s) (dv_puts s ++ [batch])
           (dv_success s) (dv_failure s + Z.of_nat i),
         Some (ErrSending err))
    | PutDone failedPutCount =>
        (mkDeliverySink (dv s) (dv_loop s) (dv_puts s ++ [batch])
           (dv_success s + (Z.of_nat i - failedPutCount))
           (dv_failure s + failedPutCount),
         None)
    end.

(** The end of one turn of the loop, lines 189-193. *)
Definition loop_end (records : list (option FhRecord)) (i : nat)
    (flush : bool) (s : DeliverySink) : DeliverySink :=
  if bool_decide (Z.of_nat i = size (dv s)) || flush
  then set_loop (LoopRunning records 0) (Process_send records i s).1
  else set_loop (LoopRunning records i) s.

(** The case [message := <-d.messages], lines 170-178, then the end of
    the turn.  [records[i] = ...] panics out of range. *)
Definition on_message (m : Msg) (records : list (option FhRecord))
    (i : nat) (s : DeliverySink) : DeliverySink * option ProcessResult :=
  match json_Marshal rt m with
  | inl err => (set_loop LoopIdle s, Some (ProcReturns (Some (ErrMarshal err))))
  | inr data =>
      if decide (i < length records)
      then (loop_end (<[i := Some (mkRecord (data +:+ newline))]> records)
              (S i) false s, None)
      else (set_loop LoopPanicked s, Some ProcPanics)
  end.

(** The case [d.messages <- message] of [Send] proceeds: there is room
    in the buffer, or the channel is unbuffered and the run loop, parked
    at its [select], takes the message. *)
Definition place (m : Msg) (s : DeliverySink)
  : option (DeliverySink * option ProcessResult) :=
  match messages (dv s) with
  | None => None
  | Some c =>
      if chan_has_room c then Some (set_messages (Some (chan_push m c)) s, None)
      else
        match dv_loop s with
        | LoopRunning records i =>
            if decide (ch_cap c = 0) then Some (on_message m records i s)
            else None
        | _ => None
        end
  end.

(** One step of the schedule of a running loop, lines 167-194. *)
Definition Process_step (a : DeliveryStep) (s : DeliverySink)
  : option (DeliverySink * option ProcessResult) :=
  match dv_loop s with
  | LoopRunning records i =>
      match a with
      | Accept m => place m s
      | Select PickMessage =>
          match messages (dv s) with
          | Some (mkChan cap (m :: buf)) =>
              Some (on_message m records i
                      (set_messages (Some (mkChan cap buf)) s))
          | _ => None
          end
      | Select PickDone =>
          let '(s, err) := Process_send records i s in
          Some (set_loop LoopIdle s, Some (ProcReturns err))
      | Select PickTimer =>
          Some (loop_end records i (bool_decide (0 < i)) s, None)
      end
  | _ => None
  end.

(** Delivery source, lines 126-195.  [make] panics on a negative size. *)
Definition Delivery_Process (sched : list DeliveryStep) (s : DeliverySink)
  : option (DeliverySink * ProcessResult) :=
  match Connect (dv s) with
  | Some err => Some (s, ProcReturns (Some err))
  | None =>
      if decide (size (dv s) < 0)%Z
      then Some (set_loop LoopPanicked s, ProcPanics)
      else
        let s := set_messages (Some (make_chan (Z.to_nat (size (dv s) * 2)))) s in
        let records := replicate (Z.to_nat (size (dv s))) None in
        run_schedule Process_step sched (set_loop (LoopRunning records 0) s)
  end.

(** Delivery source, lines 198-208.  The [select] has two cases.  The
    outcomes of the call, as far as the sink at the time of the call
    decides them: the send proceeds when it can; the error of the context
    is returned when its Done channel may be closed; and the call is
    parked when the send cannot proceed and the context has not been
    cancelled, its deadline possibly lying ahead.  A parked call ends
    later, by placing its message once the run loop has made room (a step
    [Accept] of the schedule of [Process]) or with the error of the
    context. *)
Definition Delivery_Send (ctx : Ctx) (m : Msg) (s : DeliverySink)
  : list (DeliverySink * SendResult) :=
  match messages (dv s) with
  | None =>
      [(s, Returns (Some (ErrNotReady (streamName (dv s)) (fh_Endpoint (dv s)))))]
  | Some _ =>
      let placed :=
        match place m s with
        | Some (s', _) => [(s', Returns None)]
        | None => []
        end in
      let done :=
        if ctx_may_be_done ctx then [(s, Returns (Some (ctx_Err ctx)))]
        else [] in
      let parked :=
        match placed with
        | [] => if ctx_cancelled ctx then [] else [(s, Blocks)]
        | _ => []
        end in
      placed ++ done ++ parked
  end.

#[export] Instance Delivery_Destination : Destination DeliverySink := {
  Schedule := list DeliveryStep;
  Process := Delivery_Process;
  Send := Delivery_Send
}.

End DeliverySection.


(** ** The forwarding sink ([Forwarder]) *)

Record Forwarder : Type := mkForwarder {
  endpoint : string;
  f_messages : Chan
}.

(** The goroutine inside [Process]: not there, at the [select] of the
    loop, or in the outbound call [f.send] for the message it received. *)
Inductive ForwarderLoop : Type :=
| FwdIdle
| FwdSelect
| FwdBusy (m : Msg).

(** A forwarding sink: the struct, its run loop, whether the context of
    the run loop is done and then its error, the messages the run loop
    received, the number
    of calls of [f.send] that came back, and the counters [forwarder_success_total],
    [forwarder_skipped_total] and [forwarder_failure_total] of its
    endpoint. *)
Record ForwarderSink : Type := mkForwarderSink {
  fw : Forwarder;
  fw_loop : ForwarderLoop;
  fw_done : option error;
  fw_received : list Msg;
  fw_posts : nat;
  fw_success : Z;
  fw_skipped : Z;
  fw_failure : Z
}.

(** The steps of the schedule of the forwarder's run loop: a concurrent
    [Send]; the loop receiving a buffered message; [f.send] coming back
    with the reply of the outbound call; [f.send] coming back because
    [httpDo] took the [ctx.Done()] case; the context becoming done, with
    [err] its [ctx.Err()]; and the loop taking its own [ctx.Done()]
    case. *)
Inductive ForwarderStep : Type :=
| FwdAccept (ctx : Ctx) (m : Msg)
| FwdPickMessage
| FwdFinish
| FwdAbort
| FwdCancel (err : error)
| FwdPickDone.

Section ForwarderSection.
Variable rt : Runtime.

(** Forwarder source, lines 56-65.  [None] is [log.Fatalf]. *)
Definition NewForwarder (endpoint : string) : option Forwarder :=
  if String.prefix "http" endpoint
  then Some (mkForwarder endpoint (make_chan 0))
  else None.

(** A sink as [NewForwarder] leaves it. *)
Definition new_forwarder_sink (f : Forwarder) : ForwarderSink :=
  mkForwarderSink f FwdIdle None [] 0 0 0 0.

(** The run loop is parked at its receive: it is at the [select] and
    neither of the two cases is ready. *)
Definition receiver_parked (s : ForwarderSink) : bool :=
  match fw_loop s with
  | FwdSelect =>
      bool_decide (ch_buf (f_messages (fw s)) = [])
      && (if fw_done s is None then true else false)
  | _ => false
  end.

(** Forwarder source, lines 100-107: the [select] with a [default] case. *)
Definition Forwarder_Send (ctx : Ctx) (message : Msg) (s : ForwarderSink)
  : list (ForwarderSink * SendResult) :=
  let s :=
    if receiver_parked s
    then mkForwarderSink (fw s) (FwdBusy message) (fw_done s)
           (fw_received s ++ [message]) (fw_posts s)
           (fw_success s) (fw_skipped s) (fw_failure s)
    else if chan_has_room (f_messages (fw s))
    then mkForwarderSink
           (mkForwarder (endpoint (fw s)) (chan_push message (f_messages (fw s))))
           (fw_loop s) (fw_done s) (fw_received s) (fw_posts s)
           (fw_success s) (fw_skipped s) (fw_failure s)
    else mkForwarderSink (fw s) (fw_loop s) (fw_done s) (fw_received s)
           (fw_posts s) (fw_success s) (fw_skipped s + 1) (fw_failure s) in
  [(s, Returns None)].

(** Forwarder source, lines 109-151, with [httpDo], lines 153-167: the
    error of the outbound call for [message], the [n]-th of this sink.
    [aborted] is [ctx.Err()] when the [select] of [httpDo] takes the
    [ctx.Done()] case, and [None] when it takes the reply. *)
Definition Forwarder_send (n : nat) (aborted : option error) (f : Forwarder)
    (message : Msg) : option error :=
  match message with
  | MsgOther _ => Some ErrExpectedEvent
  | MsgEvent m =>
      let batch :=
        mkSegmentBatch (MessageId (Message m)) (Timestamp (Message m))
          (SentAt (Message m)) (Context (Message m)) [Message m] in
      match json_MarshalBatch rt batch with
      | inl err => Some err
      | inr b =>
          match http_NewRequest rt (endpoint f) with
          | Some err => Some err
          | None =>
              match aborted with
              | Some err => Some err
              | None =>
                  match http_Do rt n (endpoint f) (WriteKey m) b with
                  | HttpTransportError err => Some (ErrForward err)
                  | HttpResponse st body =>
                      if decide (st < 400)%Z then None
                      else match body with
                           | inl err => Some (ErrForward err)
                           | inr text => Some (ErrResponse st text)
                           end
                  end
              end
          end
      end
  end.

(** The loop comes back from [f.send], lines 83-91. *)
Definition after_send (err : option error) (s : ForwarderSink) : ForwarderSink :=
  match err with
  | Some _ =>
      mkForwarderSink (fw s) FwdSelect (fw_done s) (fw_received s)
        (S (fw_posts s)) (fw_success s) (fw_skipped s) (fw_failure s + 1)
  | None =>
      mkForwarderSink (fw s) FwdSelect (fw_done s) (fw_received s)
        (S (fw_posts s)) (fw_success s + 1) (fw_skipped s) (fw_failure s)
  end.

(** One step of the schedule of a running loop, lines 79-96. *)
Definition Forwarder_step (a : ForwarderStep) (s : ForwarderSink)
  : option (ForwarderSink * option ProcessResult) :=
  match a, fw_loop s with
  | FwdAccept ctx m, (FwdSelect | FwdBusy _) =>
      match Forwarder_Send ctx m s with
      | (s', _) :: _ => Some (s', None)
      | [] => None
      end
  | FwdPickMessage, FwdSelect =>
      match ch_buf (f_messages (fw s)) with
      | m :: buf =>
          Some (mkForwarderSink
                  (mkForwarder (endpoint (fw s)) (mkChan (ch_cap (f_messages (fw s))) buf))
                  (FwdBusy m) (fw_done s) (fw_received s ++ [m]) (fw_posts s)
                  (fw_success s) (fw_skipped s) (fw_failure s), None)
      | [] => None
      end
  | FwdFinish, FwdBusy m =>
      Some (after_send (Forwarder_send (fw_posts s) None (fw s) m) s, None)
  | FwdAbort, FwdBusy m =>
      match fw_done s with
      | Some err =>
          Some (after_send (Forwarder_send (fw_posts s) (Some err) (fw s) m) s,
                None)
      | None => None
      end
  | FwdCancel err, (FwdSelect | FwdBusy _) =>
      Some (mkForwarderSink (fw s) (fw_loop s)
              (if fw_done s is None then Some err else fw_done s)
              (fw_received s) (fw_posts s)
              (fw_success s) (fw_skipped s) (fw_failure s), None)
  | FwdPickDone, FwdSelect =>
      match fw_done s with
      | Some _ =>
          Some (mkForwarderSink (fw s) FwdIdle (fw_done s) (fw_received s)
                  (fw_posts s) (fw_success s) (fw_skipped s) (fw_failure s),
                Some (ProcReturns None))
      | None => None
      end
  | _, _ => None
  end.

(** Forwarder source, lines 76-97. *)
Definition Forwarder_Process (sched : list ForwarderStep) (s : ForwarderSink)
  : option (ForwarderSink * ProcessResult) :=
  run_schedule Forwarder_step sched
    (mkForwarderSink (fw s) FwdSelect (fw_done s) (fw_received s) (fw_posts s)
       (fw_success s) (fw_skipped s) (fw_failure s)).

#[export] Instance Forwarder_Destination : Destination ForwarderSink := {
  Schedule := list ForwarderStep;
  Process := Forwarder_Process;
  Send := Forwarder_Send
}.

End ForwarderSection.


(** ** The supervisor (segment.go, [Run]) *)

(** What the goroutine of one destination does, in order. *)
Inductive RunEvent : Type :=
| EvProcess (attempt : nat)       (* dest.Process(ctx) is called *)
| EvSleep (duration : Z)          (* s.backo.Sleep(i) *)
| EvFatal (err : error)           (* s.Logger.Fatal(err): os.Exit(1) *)
| EvDone (err : option error).    (* done <- err *)

(** How the goroutine of one destination ends: it returns, it ends the
    whole process through [Logger.Fatal], it is still inside [Process],
    or it panics. *)
Inductive TaskResult : Type :=
| TaskReturns
| TaskExitsProcess (err : error)
| TaskRunning
| TaskPanics.

(** Modelled from the spec: [Duration] and [DefaultBacko] of the library
    github.com/segmentio/backo-go, which is not part of the repository.
    The delay of attempt [i] is the base delay times the factor to the
    power [i], at most the cap; the default is a base of 100 ms doubling
    up to 10 s (segment.go, line 38: 100 milliseconds, up to 10 seconds). *)
Definition Duration (b : Backo) (attempt : nat) : Z :=
  Z.min (backo_base b * backo_factor b ^ Z.of_nat attempt) (backo_cap b).

Definition DefaultBacko : Backo :=
  mkBacko (millisecond * 100) 2 (second * 10).

(** segment.go, lines 33-47, without the logger and the routes. *)
Definition NewSegment (projectId : string -> string) (destinations : list Dest)
  : Segment :=
  mkSegment projectId destinations DefaultBacko 10.

(** The schedules under which the attempts of [Process] of a destination
    run, and those of all destinations. *)
Definition Attempts (d : Dest) : Type :=
  nat -> @Schedule (dest_type d) (dest_impl d).

Definition Schedules : Type := forall d : Dest, Attempts d.

Module RunBacko.

(** The loop of the goroutine, segment.go lines 189-199, over the state
    of the destination: [n] turns are left, [i] is the loop variable and
    [err] the variable of that name.  The result is [None] when a
    schedule asks for a step that is not enabled. *)
Fixpoint Run_loop {D : Type} {impl : Destination D} (b : Backo)
    (scheds : nat -> @Schedule D impl) (n i : nat) (err : option error)
    (dest : D) : option (D * list RunEvent * TaskResult) :=
  match n with
  | 0 =>
      match err with
      | Some e => Some (dest, [EvFatal e], TaskExitsProcess e)
      | None => Some (dest, [], TaskReturns)
      end
  | S n' =>
      match Process (scheds i) dest with
      | None => None
      | Some (dest', ProcReturns None) => Some (dest', [EvProcess i], TaskReturns)
      | Some (dest', ProcReturns (Some e)) =>
          (fun o => (o.1.1, EvProcess i :: EvSleep (Duration b i) :: o.1.2, o.2))
            <$> Run_loop b scheds n' (S i) (Some e) dest'
      | Some (dest', ProcRunning) => Some (dest', [EvProcess i], TaskRunning)
      | Some (dest', ProcPanics) => Some (dest', [EvProcess i], TaskPanics)
      end
  end.

(** The goroutine of one destination, lines 187-200. *)
Definition Run_task (s : Segment) (dest : Dest) (scheds : Attempts dest)
  : option (Dest * list RunEvent * TaskResult) :=
  (fun o => (dest_with dest o.1.1, o.1.2, o.2))
    <$> Run_loop (backo s) scheds (backoRetry s) 0 None (dest_state dest).

(** segment.go, lines 185-202: one goroutine for each destination. *)
Definition Run (s : Segment) (scheds : Schedules)
  : list (option (Dest * list RunEvent * TaskResult)) :=
  (fun dest => Run_task s dest (scheds dest)) <$> destinations s.

End RunBacko.

Module RunDone.

(** The goroutine of one destination, segment.go lines 413-416: the
    result of the one call of [Process] goes to the channel [done]. *)
Definition Run_task (dest : Dest) (scheds : Attempts dest)
  : option (Dest * list RunEvent * TaskResult) :=
  match @Process _ (dest_impl dest) (scheds 0) (dest_state dest) with
  | None => None
  | Some (st, ProcReturns err) =>
      Some (dest_with dest st, [EvProcess 0; EvDone err], TaskReturns)
  | Some (st, ProcRunning) => Some (dest_with dest st, [EvProcess 0], TaskRunning)
  | Some (st, ProcPanics) => Some (dest_with dest st, [EvProcess 0], TaskPanics)
  end.

(** segment.go, lines 407-425: one goroutine for each destination; the
    channel [done] has room for the result of each, so that no goroutine
    waits to send, and is closed once all have sent. *)
Definition Run (s : Segment) (scheds : Schedules)
  : list (option (Dest * list RunEvent * TaskResult)) :=
  (fun dest => Run_task dest (scheds dest)) <$> destinations s.

End RunDone.


(** ** Fixtures: a concrete runtime and concrete sinks *)

Module Fixtures.

(** A runtime whose request bodies are already decoded, whose clock
    counts from 1000 and whose remote services accept everything. *)
Definition rt0 : Runtime :=
  mkRuntime (SegmentBatch + SegmentEvent)
    (fun b => match b with inl batch => Some batch | inr _ => None end)
    (fun b _ => match b with inr e => Some e | inl _ => None end)
    (fun _ => None)
    (fun _ => None)
    (fun n => 1000 + Z.of_nat n)%Z
    (fun _ => "6ba7b810-9dad-11d1-80b4-00c04fd430c8")
    (fun _ => inr "{}")
    (fun _ => inr "{}")
    (fun _ e => e)
    (fun _ => DescribeFound "arn")
    (fun _ => CreateDone "arn")
    (fun _ _ _ => PutDone 0)
    (fun _ => None)
    (fun _ _ _ _ => HttpResponse 200 (inr "ok")).

(** The same runtime with the firehose service out of reach. *)
Definition rt_down : Runtime :=
  mkRuntime (SegmentBatch + SegmentEvent)
    (json_DecodeBatch rt0) (json_DecodeEvent rt0) (base64_DecodeString rt0)
    (time_ParseDuration rt0) (time_Now rt0) (uuid_NewRandom rt0)
    (json_Marshal rt0) (json_MarshalBatch rt0) (aws_Endpoint rt0)
    (fun _ => DescribeError false (ErrLib "connection refused"))
    (fh_CreateDeliveryStream rt0) (fh_PutRecordBatch rt0)
    (http_NewRequest rt0) (http_Do rt0).

Definition ev (id : string) : SegmentEvent :=
  mkSegmentEvent "key" (mkSegmentMessage id 0%Z 0%Z EmptyString "track"
    None None None None EmptyString "user" "clicked" EmptyString EmptyString).

Definition E (n : nat) : Msg := MsgEvent (ev (String (Ascii.ascii_of_nat (48 + n)) EmptyString)).

(** A firehose sink of batch size 3, before and after [Process] starts. *)
Definition delivery3 : DeliverySink :=
  new_sink (mkDelivery "http://localhost:4573" "test-stream" 3 (second * 30) None).

Definition forwarder0 : ForwarderSink :=
  new_forwarder_sink (mkForwarder "http://localhost" (make_chan 0)).

Definition deliveryDest (s : DeliverySink) : Dest :=
  mkDest DeliverySink (Delivery_Destination rt0) s.

Definition forwarderDest (s : ForwarderSink) : Dest :=
  mkDest ForwarderSink (Forwarder_Destination rt0) s.

(** The firehose sink when the service is out of reach. *)
Definition downDest : Dest :=
  mkDest DeliverySink (Delivery_Destination rt_down) delivery3.

Definition ctx0 : Ctx := mkCtx None false.

Definition pid (writeKey : string) : string :=
  if decide (writeKey = "key") then "project" else EmptyString.

(** A dispatcher whose first sink is a firehose sink that has not
    started and whose second is a forwarder. *)
Definition seg0 : Segment :=
  NewSegment pid [deliveryDest delivery3; forwarderDest forwarder0].

(** A dispatcher whose first sink is a forwarder and whose second is a
    firehose sink that has not started. *)
Definition seg2 : Segment :=
  NewSegment pid [forwarderDest forwarder0; deliveryDest delivery3].

(** A dispatcher with the forwarder alone. *)
Definition seg1 : Segment := NewSegment pid [forwarderDest forwarder0].

Definition shared : gmap string JValue := {[ "ip" := JStr "10.0.0.1" ]}.
Definition own : gmap string JValue := {[ "locale" := JStr "en" ]}.

Definition msg_with (id : string) (cx : option (gmap string JValue))
  : SegmentMessage :=
  mkSegmentMessage id 5%Z 5%Z EmptyString "track" cx None None None
    EmptyString "user" "clicked" EmptyString EmptyString.

(** A batch of two messages, one with a context of its own. *)
Definition batch_of (cx : option (gmap string JValue)) : SegmentBatch :=
  mkSegmentBatch "b1" 5%Z 5%Z cx [msg_with "m1" (Some own); msg_with "m2" None].

Definition no_form (key : string) : string := EmptyString.

Definition batch_request (user : string) (cx : option (gmap string JValue))
  : Request rt0 :=
  mkRequest rt0 "POST" (inl (batch_of cx)) (Some (user, EmptyString))
    no_form no_form.

Definition event_request (e : SegmentEvent) : Request rt0 :=
  mkRequest rt0 "POST" (inr e) None no_form no_form.

(** The context carried by the event of a call. *)
Definition call_Context (c : Call) : option (gmap string JValue) :=
  match call_msg c with
  | MsgEvent e => Context (Message e)
  | MsgOther _ => None
  end.

(** The configuration of [delivery3], and a schedule in which the timer
    fires over one buffered record before two more messages arrive and
    the context is cancelled. *)
Definition cfg3 : DeliveryConfig :=
  mkDeliveryConfig "http://localhost:4573" "us-west-2" "test-stream" 3 0.

Definition sched_timer : list DeliveryStep :=
  [Accept (E 1); Select PickMessage; Select PickTimer;
   Accept (E 2); Accept (E 3); Select PickMessage; Select PickMessage;
   Select PickDone].

(** A runtime whose marshaller refuses everything but events. *)
Definition rt_strict : Runtime :=
  mkRuntime (SegmentBatch + SegmentEvent)
    (json_DecodeBatch rt0) (json_DecodeEvent rt0) (base64_DecodeString rt0)
    (time_ParseDuration rt0) (time_Now rt0) (uuid_NewRandom rt0)
    (fun m => match m with
              | MsgEvent _ => inr "{}"
              | MsgOther _ => inl (ErrLib "unsupported type")
              end)
    (json_MarshalBatch rt0) (aws_Endpoint rt0)
    (fh_DescribeDeliveryStream rt0)
    (fh_CreateDeliveryStream rt0) (fh_PutRecordBatch rt0)
    (http_NewRequest rt0) (http_Do rt0).

End Fixtures.

(** ** Vocabulary of the properties *)

(** The event [send] hands to the destinations, from its lines 166-172:
    [filled_by_send m w m'] says that [m'] is [m] with the three fields
    filled from the clock and from the random source as read in [w],
    and the other fields kept. *)
Definition filled_by_send (rt : Runtime) (m : SegmentEvent) (w : World) (m' : SegmentEvent)
  : Prop :=
  let late := if decide (Timestamp (Message m) = time_zero) then 1 else 0 in
  Timestamp (Message m') =
    (if decide (Timestamp (Message m) = time_zero)
     then time_Now rt (clock_reads w) else Timestamp (Message m)) /\
  SentAt (Message m') = time_Now rt (clock_reads w + late) /\
  MessageId (Message m') =
    (if decide (MessageId (Message m) = EmptyString)
     then uuid_NewRandom rt (uuid_reads w) else MessageId (Message m)) /\
  WriteKey m' = WriteKey m /\
  ProjectId (Message m') = ProjectId (Message m) /\
  Type_ (Message m') = Type_ (Message m) /\
  Context (Message m') = Context (Message m) /\
  Properties (Message m') = Properties (Message m) /\
  Traits (Message m') = Traits (Message m) /\
  Integrations (Message m') = Integrations (Message m).

(** The fields of a message that neither a handler nor [send] assigns,
    as an event carries them: the type, the three maps other than the
    context, the two identities and the three names are those of the
    message, and so are the id and the timestamp when the message came
    with them. *)
Definition carries_message (m : SegmentMessage) (e : SegmentEvent) : Prop :=
  Type_ (Message e) = Type_ m /\
  Properties (Message e) = Properties m /\
  Traits (Message e) = Traits m /\
  Integrations (Message e) = Integrations m /\
  AnonymousId (Message e) = AnonymousId m /\
  UserId (Message e) = UserId m /\
  Event (Message e) = Event m /\
  Category (Message e) = Category m /\
  Name (Message e) = Name m /\
  (MessageId m <> EmptyString -> MessageId (Message e) = MessageId m) /\
  (Timestamp m <> time_zero -> Timestamp (Message e) = Timestamp m).

(** The log of a handler that sent the events of [sent] one after the
    other, the event [e] of an entry [(e, n)] to the first [n]
    destinations in their order. *)
Definition batch_calls (ctx : Ctx) (sent : list (SegmentEvent * nat))
  : list Call :=
  flat_map (fun en => (fun j => mkCall j ctx (MsgEvent en.1)) <$> seq 0 en.2)
    sent.

(** The event a request of [handleEvent] decodes to, if its body decodes:
    the write key of the basic authorization and the type of the route,
    over which the body is decoded (segment.go, lines 110-129). *)
Definition event_of_request (rt : Runtime) (r : Request rt)
  : option SegmentEvent :=
  body ← (if decide (Method r = "GET")
          then base64_DecodeString rt (FormValue r "data")
          else Some (req_Body r));
  json_DecodeEvent rt body
    (mkSegmentEvent
       (match BasicAuth r with Some (user, _) => user | None => EmptyString end)
       (message_of_type (Vars r "event"))).

(** The messages that concurrent [Send] calls placed during a schedule,
    the number of messages the run loop took from the channel, and
    whether the timer case was ever taken. *)
Definition accepted (h : list DeliveryStep) : list Msg :=
  omap (fun a => match a with Accept m => Some m | Select _ => None end) h.

Definition picked (h : list DeliveryStep) : nat :=
  length (omap (fun a => match a with
                         | Select PickMessage => Some tt
                         | _ => None
                         end) h).

Definition timer_free (h : list DeliveryStep) : Prop :=
  Forall (fun a => a <> Select PickTimer) h.

(** The record [Process] stores for a message that marshals to [data]. *)
Definition record_of (data : string) : option FhRecord :=
  Some (mkRecord (data +:+ newline)).

(** The state of a run loop of batch size [sz] that is at its [select]
    after the schedule [h], for a sink that had made the calls [puts0]
    before: the channel holds the accepted messages not yet taken; the
    messages taken all marshalled, and their records, in order, are those
    of the batches put since, followed by the [i] records buffered; and
    the batches are full ones as long as no timer fired. *)
Definition running_inv (rt : Runtime) (sz : Z) (puts0 : list (list (option FhRecord)))
    (h : list DeliveryStep) (s : DeliverySink) : Prop :=
  exists records i datas puts,
    dv_loop s = LoopRunning records i /\
    length records = Z.to_nat sz /\
    i < length records /\
    size (dv s) = sz /\
    picked h <= length (accepted h) /\
    messages (dv s)
      = Some (mkChan (Z.to_nat (sz * 2)) (drop (picked h) (accepted h))) /\
    Forall2 (fun m data => json_Marshal rt m = inr data)
      (take (picked h) (accepted h)) datas /\
    dv_puts s = puts0 ++ puts /\
    concat puts ++ take i records = record_of <$> datas /\
    (timer_free h -> Forall (fun b => length b = Z.to_nat sz) puts).

(** The attempts and sleeps of the turns [i], ..., [i + n - 1]. *)
Definition failed_turns (b : Backo) (i n : nat) : list RunEvent :=
  flat_map (fun j => [EvProcess j; EvSleep (Duration b j)]) (seq i n).

(** The books of a firehose sink of batch size [sz] whose channel has
    been created: the channel has twice the batch size as capacity and
    holds no more; every batch put so far has between one and [sz]
    records; the two counters add up to the number of records put. *)
Definition ledger_ok (sz : Z) (s : DeliverySink) : Prop :=
  size (dv s) = sz /\
  (exists buf, messages (dv s) = Some (mkChan (Z.to_nat (sz * 2)) buf) /\
               length buf <= Z.to_nat (sz * 2)) /\
  Forall (fun b => 1 <= length b <= Z.to_nat sz) (dv_puts s) /\
  (dv_success s + dv_failure s)%Z = Z.of_nat (length (concat (dv_puts s))).

(** The arguments of the [Add] calls on the counters of the stream
    [name] that the [PutRecordBatch] calls with the batches [puts] lead
    to, [k] being the number of the first of these calls: for each call,
    what is added to [delivery_failure_total] and what is added to
    [delivery_success_total] (Delivery source, lines 150, 157 and 158;
    after an error nothing is added to the successes). *)
Fixpoint counter_adds (rt : Runtime) (name : string) (k : nat)
    (puts : list (list (option FhRecord))) : list (Z * Z) :=
  match puts with
  | [] => []
  | batch :: rest =>
      match fh_PutRecordBatch rt k name batch with
      | PutError _ => (Z.of_nat (length batch), 0%Z)
      | PutDone failedPutCount =>
          (failedPutCount, (Z.of_nat (length batch) - failedPutCount)%Z)
      end :: counter_adds rt name (S k) rest
  end.

Definition total (l : list Z) : Z := foldr Z.add 0%Z l.

(** The replies of the firehose service are within its contract for the
    stream [name]: the count of failed records of a reply is between
    zero and the number of records of the call. *)
Definition replies_in_contract (rt : Runtime) (name : string) : Prop :=
  forall k batch failedPutCount,
    fh_PutRecordBatch rt k name batch = PutDone failedPutCount ->
    (0 <= failedPutCount <= Z.of_nat (length batch))%Z.

(** The counters of a sink on the stream [name] hold what the [Add]
    calls of its puts added. *)
Definition counters_ok (rt : Runtime) (name : string) (s : DeliverySink)
  : Prop :=
  streamName (dv s) = name /\
  dv_failure s = total (fst <$> counter_adds rt name 0 (dv_puts s)) /\
  dv_success s = total (snd <$> counter_adds rt name 0 (dv_puts s)).

(** The locals of the run loop are in range: the array has the batch
    size and the index is inside it. *)
Definition loop_ok (sz : Z) (s : DeliverySink) : Prop :=
  match dv_loop s with
  | LoopRunning records i => length records = Z.to_nat sz /\ i < length records
  | LoopIdle => True
  | LoopPanicked => False
  end.

(** The messages that concurrent [Send] calls submitted to a forwarder
    during a schedule. *)
Definition submitted (h : list ForwarderStep) : list Msg :=
  omap (fun a => match a with FwdAccept _ m => Some m | _ => None end) h.

(** The books of a forwarder with the unbuffered channel after the
    schedule [h]: the messages its run loop received are among the
    submitted ones, in submission order; every submitted message was
    either received or counted as skipped; every outbound call that came
    back was counted once, as a success or as a failure; and the calls
    that came back are the messages received, less the one in flight. *)
Definition forwarder_books (h : list ForwarderStep) (s : ForwarderSink) : Prop :=
  f_messages (fw s) = make_chan 0 /\
  fw_received s `sublist_of` submitted h /\
  Z.of_nat (length (submitted h))
    = (Z.of_nat (length (fw_received s)) + fw_skipped s)%Z /\
  (fw_success s + fw_failure s)%Z = Z.of_nat (fw_posts s) /\
  length (fw_received s)
    = fw_posts s + (if fw_loop s is FwdBusy _ then 1 else 0) /\
  (0 <= fw_skipped s)%Z.

(** * Properties *)

(** ** The fan-out of [send] *)

Section SendLoop.
Variables (ctx : Ctx) (m : Msg).

(** What any outcome of the loop of [send] looks like: the first [n]
    destinations were called, in order, each with [ctx] and [m]; all but
    the last of them returned nil, the last gave the result of the loop;
    the destinations after them are as they were. *)
Lemma send_loop_spec (ds : list Dest) :
  forall k out cs r,
    (out, cs, r) ∈ send_loop ctx m k ds ->
    exists n, n <= length ds /\
      cs = (fun j => mkCall j ctx m) <$> seq k n /\
      length out = length ds /\
      drop n out = drop n ds /\
      (forall j d, j < n -> ds !! j = Some d ->
         exists d', out !! j = Some d' /\
           (d', if decide (S j = n) then r else Returns None)
             ∈ dest_Send ctx m d) /\
      (r = Returns None -> n = length ds) /\
      (r <> Returns None -> 0 < n).
Proof.
  induction ds as [|d ds IH]; intros k out cs r Hin; simpl in Hin.
  - apply list_elem_of_singleton in Hin. injection Hin as -> -> ->.
    exists 0. repeat split; try done; intros; lia.
  - apply list_elem_of_bind in Hin as [[d' res] [Hin Hd]]. simpl in Hin.
    assert (Hstop : res <> Returns None ->
              (out, cs, r) ∈ [(d' :: ds, [mkCall k ctx m], res)] ->
              exists n, n <= length (d :: ds) /\
                cs = (fun j => mkCall j ctx m) <$> seq k n /\
                length out = length (d :: ds) /\
                drop n out = drop n (d :: ds) /\
                (forall j d0, j < n -> (d :: ds) !! j = Some d0 ->
                   exists d'0, out !! j = Some d'0 /\
                     (d'0, if decide (S j = n) then r else Returns None)
                       ∈ dest_Send ctx m d0) /\
                (r = Returns None -> n = length (d :: ds)) /\
                (r <> Returns None -> 0 < n)).
    { intros Hne Hs. apply list_elem_of_singleton in Hs.
      injection Hs as -> -> ->. exists 1. simpl.
      repeat split; try done; try lia.
      intros j d0 Hj Hl. assert (j = 0) as -> by lia.
      simpl in Hl. injection Hl as <-. exists d'. split; [done|].
      by rewrite decide_True. }
    destruct res as [[e|]|]; [by apply Hstop| |by apply Hstop].
    apply list_elem_of_fmap in Hin as [[[out' cs'] r'] [Heq Hin]].
    simpl in Heq. injection Heq as -> -> ->.
    destruct (IH _ _ _ _ Hin) as (n & Hn & Hcs & Hlen & Hdrop & Hcalls & Hnil & Hpos).
    exists (S n). split_and!.
    + simpl; lia.
    + simpl. by rewrite Hcs.
    + simpl. by rewrite Hlen.
    + done.
    + intros [|j] d0 Hj Hl; simpl in Hl.
      * injection Hl as <-. exists d'. split; [done|].
        destruct (decide (1 = S n)) as [Heq|]; [|done].
        assert (n = 0) as -> by lia.
        destruct r' as [[e|]|]; [|done|];
          (assert (0 < 0) by (by apply Hpos); lia).
      * destruct (Hcalls j d0 ltac:(lia) Hl) as (d'0 & Hout & Hres).
        exists d'0. split; [done|].
        destruct (decide (S j = n)), (decide (S (S j) = S n)); try lia; done.
    + intros Hr. simpl. by rewrite (Hnil Hr).
    + lia.
Qed.

(** Conversely, every chain of outcomes of the destinations is an outcome
    of the loop: when the first destinations, as many as [outs] has
    states, each have an outcome of [Send] leading to the state in
    [outs], with nil for all but the last and the result [r] for the
    last, and [r] is nil only at the end of the list, the loop has the
    outcome that calls just these destinations and gives [r]. *)
Lemma send_loop_complete (ds : list Dest) :
  forall k outs r,
    length outs <= length ds ->
    (forall j d', outs !! j = Some d' ->
       exists d, ds !! j = Some d /\
         (d', if decide (S j = length outs) then r else Returns None)
           ∈ dest_Send ctx m d) ->
    (r = Returns None -> length outs = length ds) ->
    (r <> Returns None -> 0 < length outs) ->
    (outs ++ drop (length outs) ds,
     (fun j => mkCall j ctx m) <$> seq k (length outs), r)
      ∈ send_loop ctx m k ds.
Proof.
  induction ds as [|d ds IH]; intros k outs r Hlen Hchain Hnil Hpos.
  - destruct outs as [|d' outs]; [|simpl in Hlen; lia]. simpl.
    destruct r as [[e|]|]; [|apply list_elem_of_here|];
      (assert (0 < 0) by (by apply Hpos); lia).
  - destruct outs as [|d' outs].
    { destruct r as [[e|]|]; [|by specialize (Hnil eq_refl)|];
        (assert (0 < 0) by (by apply Hpos); lia). }
    destruct (Hchain 0 d' eq_refl) as (d0 & [= <-] & Hfirst).
    simpl in Hlen. simpl length in *. simpl.
    apply list_elem_of_bind.
    eexists (d', _). split; [|exact Hfirst]. simpl.
    destruct (decide (1 = S (length outs))) as [Hone|Hmore].
    + destruct outs as [|? ?]; [|discriminate Hone]. simpl.
      destruct r as [[e|]|]; [apply list_elem_of_here| |apply list_elem_of_here].
      apply list_elem_of_fmap.
      exists ([] ++ drop 0 ds, (fun j => mkCall j ctx m) <$> seq (S k) 0,
              Returns None).
      split; [done|].
      apply (IH (S k) [] (Returns None)); simpl; try done; try lia.
      intros _. specialize (Hnil eq_refl). simpl in Hnil. lia.
    + apply list_elem_of_fmap.
      exists (outs ++ drop (length outs) ds,
              (fun j => mkCall j ctx m) <$> seq (S k) (length outs), r).
      split; [done|].
      apply IH; [lia| | |].
      * intros j d'' Hj. destruct (Hchain (S j) d'' Hj) as (d0 & Hd0 & Hres).
        exists d0. split; [done|].
        destruct (decide (S j = length outs)),
          (decide (S (S j) = S (length outs))); try lia; done.
      * intros Hr. specialize (Hnil Hr). lia.
      * intros _. destruct outs; simpl in *; lia.
Qed.

End SendLoop.

Section SendProperties.
Variable rt : Runtime.

Lemma send_inv (s : Segment) (ctx : Ctx) (m : SegmentEvent) (w : World)
    (s' : Segment) (w' : World) (r : SendResult) :
  (s', w', r) ∈ send rt s ctx m w ->
  exists m' out cs,
    filled_by_send rt m w m' /\
    (out, cs, r) ∈ send_loop ctx (MsgEvent m') 0 (destinations s) /\
    s' = with_destinations out s /\
    calls w' = calls w ++ cs.
Proof.
  unfold send, filled_by_send. intros Hin.
  destruct m as [wk [mid ts sa pj ty cx pr tr ig an us evn cat nm]].
  destruct w as [cr ur cl]. simpl in *.
  destruct (decide (ts = time_zero)) as [Hts|Hts]; simpl in Hin;
    destruct (decide (mid = EmptyString)) as [Hmid|Hmid]; simpl in Hin;
    apply list_elem_of_fmap in Hin as [[[out cs] r0] [Heq Hin]];
    simpl in Heq; injection Heq as -> -> ->;
    eexists _, out, cs; (split; [|split; [exact Hin|split; [done|done]]]);
    simpl; rewrite ?Nat.add_1_r, ?Nat.add_0_r; split_and!; done.
Qed.

(** [send] is its loop run on the event as filled. *)
Lemma send_as_loop (s : Segment) (ctx : Ctx) (m : SegmentEvent) (w : World) :
  exists m' wf,
    filled_by_send rt m w m' /\
    calls wf = calls w /\
    send rt s ctx m w
    = (fun r => (with_destinations r.1.1 s, log_calls r.1.2 wf, r.2))
        <$> send_loop ctx (MsgEvent m') 0 (destinations s).
Proof.
  unfold send, filled_by_send.
  destruct m as [wk [mid ts sa pj ty cx pr tr ig an us evn cat nm]].
  destruct w as [cr ur cl]. simpl.
  destruct (decide (ts = time_zero)) as [Hts|Hts]; simpl;
    destruct (decide (mid = EmptyString)) as [Hmid|Hmid]; simpl;
    eexists _, _; split_and!; try reflexivity; simpl;
    rewrite ?Nat.add_1_r, ?Nat.add_0_r; done.
Qed.

(** C1.  There is one event, the event that came in with its id and
    timestamps filled, that [send] hands to every destination it calls,
    and the outcomes of [send] are exactly
    the chains of outcomes of the destinations taken in the order of
    [s.destinations].
    - Every outcome of [send] calls the first [n] destinations, one by
      one and in order, each with the same context and event.  All but
      the last of them returned nil, and the last one gave the very
      result of [send]: nil only when all destinations were called; an
      error [err] when its [Send] returned [err]; parked when its [Send]
      is parked.  No later destination is called: the log holds no call
      for them and their states are as before.
    - Conversely, whenever the first destinations have outcomes of [Send]
      that are nil but for the last, and the last result is nil only at
      the end of the list, [send] has the outcome that calls just these
      destinations, in order, and gives that last result: it neither
      skips a destination nor goes on after an error. *)
Theorem C1_send_first_error_aborts (s : Segment) (ctx : Ctx)
    (m : SegmentEvent) (w : World) :
  exists m',
    filled_by_send rt m w m' /\
    (forall s' w' r,
       (s', w', r) ∈ send rt s ctx m w ->
       exists n,
         n <= length (destinations s) /\
         calls w' = calls w ++ ((fun j => mkCall j ctx (MsgEvent m')) <$> seq 0 n) /\
         length (destinations s') = length (destinations s) /\
         (forall j d, S j < n -> destinations s !! j = Some d ->
            exists d', destinations s' !! j = Some d' /\
              (d', Returns None) ∈ dest_Send ctx (MsgEvent m') d) /\
         drop n (destinations s') = drop n (destinations s) /\
         (r = Returns None -> n = length (destinations s)) /\
         (r = Returns None ->
          forall j d, destinations s !! j = Some d ->
            exists d', destinations s' !! j = Some d' /\
              (d', Returns None) ∈ dest_Send ctx (MsgEvent m') d) /\
         (r <> Returns None ->
          exists k dest dest', n = S k /\
            destinations s !! k = Some dest /\
            destinations s' !! k = Some dest' /\
            (dest', r) ∈ dest_Send ctx (MsgEvent m') dest) /\
         (forall err, r = Returns (Some err) ->
            exists k dest dest', n = S k /\
              destinations s !! k = Some dest /\
              destinations s' !! k = Some dest' /\
              (dest', Returns (Some err)) ∈ dest_Send ctx (MsgEvent m') dest)) /\
    (forall outs r,
       length outs <= length (destinations s) ->
       (forall j d', outs !! j = Some d' ->
          exists d, destinations s !! j = Some d /\
            (d', if decide (S j = length outs) then r else Returns None)
              ∈ dest_Send ctx (MsgEvent m') d) ->
       (r = Returns None -> length outs = length (destinations s)) ->
       (r <> Returns None -> 0 < length outs) ->
       exists w',
         (with_destinations (outs ++ drop (length outs) (destinations s)) s,
          w', r) ∈ send rt s ctx m w /\
         calls w'
         = calls w ++ ((fun j => mkCall j ctx (MsgEvent m')) <$> seq 0 (length outs))).
Proof.
  destruct (send_as_loop s ctx m w) as (m' & wf & Hfill & Hwf & Hsend).
  exists m'. split; [done|]. split.
  - intros s' w' r Hin. rewrite Hsend in Hin.
    apply list_elem_of_fmap in Hin as [[[out cs] r0] [Heq Hloop]].
    simpl in Heq. injection Heq as -> -> ->.
    apply send_loop_spec in Hloop
      as (n & Hn & -> & Hlen & Hdrop & Hcall & Hnil & Hpos).
    assert (Hlast : r0 <> Returns None ->
              exists k dest dest', n = S k /\
                destinations s !! k = Some dest /\
                out !! k = Some dest' /\
                (dest', r0) ∈ dest_Send ctx (MsgEvent m') dest).
    { intros Hr. specialize (Hpos Hr). destruct n as [|k]; [lia|].
      destruct (lookup_lt_is_Some_2 (destinations s) k ltac:(lia))
        as [dest Hdest].
      destruct (Hcall k dest ltac:(lia) Hdest) as (dest' & Hout & Hres).
      exists k, dest, dest'. by rewrite decide_True in Hres. }
    exists n. simpl. rewrite Hwf. split_and!; try done.
    + intros j d Hj Hl.
      destruct (Hcall j d ltac:(lia) Hl) as (d' & Hout & Hres).
      exists d'. split; [done|]. by rewrite decide_False in Hres by lia.
    + intros -> j d Hl. specialize (Hnil eq_refl). subst n.
      pose proof (lookup_lt_Some _ _ _ Hl) as Hj.
      destruct (Hcall j d Hj Hl) as (d' & Hout & Hres).
      exists d'. split; [done|]. by destruct (decide (S j = _)).
    + intros err ->. by apply Hlast.
  - intros outs r Hlen Hchain Hnil Hpos.
    exists (log_calls ((fun j => mkCall j ctx (MsgEvent m')) <$>
                         seq 0 (length outs)) wf).
    split; [|by simpl; rewrite Hwf].
    rewrite Hsend. apply list_elem_of_fmap.
    exists (outs ++ drop (length outs) (destinations s),
            (fun j => mkCall j ctx (MsgEvent m')) <$> seq 0 (length outs), r).
    split; [done|]. by apply send_loop_complete.
Qed.

End SendProperties.

(** C1, at two dispatchers of the fixtures.  In the first the firehose
    sink, which has not started, comes first: its [Send] fails and the
    forwarder is not called.  In the second the forwarder comes first:
    it returns nil, the firehose sink is called next, and its error is
    the result of [send]. *)
Lemma C1_send_first_error_aborts_witness :
  let err := ErrNotReady "test-stream" "http://localhost:4573" in
  (forall s' w' r,
     (s', w', r) ∈ send Fixtures.rt0 Fixtures.seg0 Fixtures.ctx0
                     (Fixtures.ev "1") world0 ->
     r = Returns (Some err) /\ call_dest <$> calls w' = [0] /\
     drop 1 (destinations s') = drop 1 (destinations Fixtures.seg0)) /\
  (forall s' w' r,
     (s', w', r) ∈ send Fixtures.rt0 Fixtures.seg2 Fixtures.ctx0
                     (Fixtures.ev "1") world0 ->
     r = Returns (Some err) /\ call_dest <$> calls w' = [0; 1]) /\
  (exists s' w',
     (s', w', Returns (Some err))
       ∈ send Fixtures.rt0 Fixtures.seg2 Fixtures.ctx0 (Fixtures.ev "1") world0).
Proof.
  intros err.
  assert (Hfwd : forall msg d' r,
            (d', r) ∈ dest_Send Fixtures.ctx0 msg
                        (Fixtures.forwarderDest Fixtures.forwarder0) ->
            r = Returns None).
  { intros msg d' r H. unfold dest_Send in H. simpl in H.
    apply list_elem_of_singleton in H. by injection H as _ ->. }
  assert (Hdel : forall msg d' r,
            (d', r) ∈ dest_Send Fixtures.ctx0 msg
                        (Fixtures.deliveryDest Fixtures.delivery3) ->
            r = Returns (Some err) /\ d' = Fixtures.deliveryDest Fixtures.delivery3).
  { intros msg d' r H. unfold dest_Send in H. simpl in H.
    apply list_elem_of_singleton in H. by injection H as -> ->. }
  split_and!.
  - destruct (C1_send_first_error_aborts Fixtures.rt0 Fixtures.seg0
                Fixtures.ctx0 (Fixtures.ev "1") world0) as (m' & _ & Hsound & _).
    intros s' w' r Hin.
    destruct (Hsound s' w' r Hin)
      as (n & Hn & Hcalls & _ & Hbefore & Hdrop & Hnil & Hall & Hlast & _).
    assert (Hr : r <> Returns None).
    { intros ->. destruct (Hall eq_refl 0 _ eq_refl) as (d' & _ & Hres).
      apply Hdel in Hres as [Hres _]. discriminate Hres. }
    destruct (Hlast Hr) as (k & dest & dest' & -> & Hk & _ & Hres).
    destruct k as [|k].
    + injection Hk as <-. apply Hdel in Hres as [-> _].
      split; [done|]. split; [by rewrite Hcalls|done].
    + destruct (Hbefore 0 _ ltac:(lia) eq_refl) as (d' & _ & Hres0).
      apply Hdel in Hres0 as [Hres0 _]. discriminate Hres0.
  - destruct (C1_send_first_error_aborts Fixtures.rt0 Fixtures.seg2
                Fixtures.ctx0 (Fixtures.ev "1") world0) as (m' & _ & Hsound & _).
    intros s' w' r Hin.
    destruct (Hsound s' w' r Hin)
      as (n & Hn & Hcalls & _ & Hbefore & Hdrop & Hnil & Hall & Hlast & _).
    assert (Hr : r <> Returns None).
    { intros ->. destruct (Hall eq_refl 1 _ eq_refl) as (d' & _ & Hres).
      apply Hdel in Hres as [Hres _]. discriminate Hres. }
    destruct (Hlast Hr) as (k & dest & dest' & -> & Hk & _ & Hres).
    destruct k as [|[|k]].
    + injection Hk as <-. apply Hfwd in Hres. done.
    + injection Hk as <-. apply Hdel in Hres as [-> _].
      split; [done|]. by rewrite Hcalls.
    + discriminate Hk.
  - destruct (C1_send_first_error_aborts Fixtures.rt0 Fixtures.seg2
                Fixtures.ctx0 (Fixtures.ev "1") world0) as (m' & _ & _ & Hcomplete).
    destruct (Hcomplete
                [Fixtures.forwarderDest
                   (mkForwarderSink (fw Fixtures.forwarder0) FwdIdle None []
                      0 0 1 0);
                 Fixtures.deliveryDest Fixtures.delivery3]
                (Returns (Some err))) as (w' & Hin & _).
    + simpl. lia.
    + intros [|[|j]] d' Hj; [| |discriminate Hj]; injection Hj as <-; simpl.
      * eexists. split; [reflexivity|]. apply list_elem_of_here.
      * eexists. split; [reflexivity|]. apply list_elem_of_here.
    + discriminate.
    + simpl. lia.
    + eauto.
Defined.

(** C5.  Every outcome of [send] hands one and the same event [m'] to
    every destination it calls, and [m'] was filled before the first
    call: its message id is a fresh identifier from the random source
    when [m] had none, its timestamp is the current time when [m] had the
    zero time, and its [SentAt] is the current time whatever [m] held. *)
Theorem C5_send_fills_before_dispatch (rt : Runtime) (s : Segment) (ctx : Ctx)
    (m : SegmentEvent) (w : World) (s' : Segment) (w' : World)
    (r : SendResult) :
  (s', w', r) ∈ send rt s ctx m w ->
  exists m' cs,
    calls w' = calls w ++ cs /\
    Forall (fun c => call_msg c = MsgEvent m') cs /\
    MessageId (Message m') =
      (if decide (MessageId (Message m) = EmptyString)
       then uuid_NewRandom rt (uuid_reads w) else MessageId (Message m)) /\
    Timestamp (Message m') =
      (if decide (Timestamp (Message m) = time_zero)
       then time_Now rt (clock_reads w) else Timestamp (Message m)) /\
    SentAt (Message m') =
      time_Now rt (clock_reads w +
                   (if decide (Timestamp (Message m) = time_zero) then 1 else 0)).
Proof.
  intros Hin.
  apply send_inv in Hin as (m' & out & cs & Hfill & Hloop & _ & Hcalls).
  apply send_loop_spec in Hloop as (n & _ & -> & _).
  destruct Hfill as (Hts & Hsa & Hid & _).
  exists m', ((fun j => mkCall j ctx (MsgEvent m')) <$> seq 0 n).
  split_and!; try done.
  apply Forall_fmap, Forall_forall. by intros.
Qed.

(** C5, at the forwarder of the fixtures, for an event without id and
    timestamp and with a [SentAt] of its own. *)
Lemma C5_send_fills_before_dispatch_witness :
  let m := mkSegmentEvent "key" (mkSegmentMessage EmptyString 0%Z 77%Z "project"
             "track" None None None None EmptyString "user" "clicked"
             EmptyString EmptyString) in
  exists s' w' m',
    (s', w', Returns None)
      ∈ send Fixtures.rt0 Fixtures.seg1 Fixtures.ctx0 m world0 /\
    call_msg <$> calls w' = [MsgEvent m'] /\
    MessageId (Message m') = "6ba7b810-9dad-11d1-80b4-00c04fd430c8" /\
    Timestamp (Message m') = 1000%Z /\
    SentAt (Message m') = 1001%Z.
Proof.
  intros m.
  assert (exists s' w',
    (s', w', Returns None) ∈ send Fixtures.rt0 Fixtures.seg1 Fixtures.ctx0 m world0
    /\ length (calls w') = 1)
    as (s' & w' & Hin & Hlen)
    by (eexists _, _; split; [vm_compute; apply list_elem_of_here|reflexivity]).
  exists s', w'.
  destruct (C5_send_fills_before_dispatch _ _ _ _ _ _ _ _ Hin)
    as (m' & cs & Hcalls & Hall & Hid & Hts & Hsa).
  exists m'. split; [exact Hin|]. simpl in Hcalls. rewrite Hcalls in *.
  destruct cs as [|c [|c' cs]]; try discriminate Hlen.
  apply Forall_inv in Hall. simpl. rewrite Hall. done.
Defined.

(** ** The handlers *)

Section HandlerProperties.
Variable rt : Runtime.

(** An outcome of [send], field by field: the event that went out has
    every field of the event that came in but the three [send] fills,
    and went to the first [n] destinations. *)
Lemma send_outcome_fields (s : Segment) (ctx : Ctx) (m : SegmentEvent)
    (w : World) (s' : Segment) (w' : World) (r : SendResult) :
  (s', w', r) ∈ send rt s ctx m w ->
  exists m' n,
    WriteKey m' = WriteKey m /\
    ProjectId (Message m') = ProjectId (Message m) /\
    Context (Message m') = Context (Message m) /\
    carries_message (Message m) m' /\
    calls w' = calls w ++ ((fun j => mkCall j ctx (MsgEvent m')) <$> seq 0 n) /\
    n <= length (destinations s) /\
    length (destinations s') = length (destinations s) /\
    projectId s' = projectId s /\
    (r = Returns None -> n = length (destinations s)) /\
    (r <> Returns None -> 0 < n).
Proof.
  unfold send, carries_message. intros Hin.
  destruct m as [wk [mid ts sa pj ty cx pr tr ig an us evn cat nm]].
  destruct w as [cr ur cl]. simpl in *.
  destruct (decide (ts = time_zero)) as [Hts|Hts]; simpl in Hin;
    destruct (decide (mid = EmptyString)) as [Hmid|Hmid]; simpl in Hin;
    apply list_elem_of_fmap in Hin as [[[out cs] r0] [Heq Hin]];
    simpl in Heq; injection Heq as -> -> ->;
    apply send_loop_spec in Hin as (n & Hn & -> & Hlen & _ & _ & Hnil & Hpos);
    eexists _, n; simpl; split_and!; intros; try reflexivity; try done; auto.
Qed.

(** The loop of [handleBatch], message by message.  The loop sends the
    events of the first messages of the batch, in their order, one event
    for each message: the event has the write key, the project id and the
    context the loop was given and carries the other fields of its
    message.  Every event but the last went to all the destinations; so
    did the last when the loop answers 200, and then no message is left
    out; otherwise the last event reached a destination that did not
    return nil. *)
Lemma handleBatch_loop_trace (ctx : Ctx) (writeKey pid : string)
    (batchContext : option (gmap string JValue)) (ms : list SegmentMessage) :
  forall s w s' w' resp,
    (s', w', resp)
      ∈ handleBatch_loop rt s ctx writeKey pid batchContext ms w ->
    exists sent : list (SegmentEvent * nat),
      calls w' = calls w ++ batch_calls ctx sent /\
      length sent <= length ms /\
      Forall2 (fun m en =>
                 WriteKey en.1 = writeKey /\
                 ProjectId (Message en.1) = pid /\
                 Context (Message en.1) = batchContext /\
                 carries_message m en.1 /\
                 en.2 <= length (destinations s))
        (take (length sent) ms) sent /\
      (forall k en, sent !! k = Some en -> S k < length sent ->
         en.2 = length (destinations s)) /\
      (resp = Some (mkResponse StatusOK true) ->
         length sent = length ms /\
         Forall (fun en => en.2 = length (destinations s)) sent) /\
      (resp <> Some (mkResponse StatusOK true) ->
         (resp = Some (http_Error StatusInternalServerError) \/ resp = None) /\
         exists en, last sent = Some en /\ 0 < en.2).
Proof.
  induction ms as [|m ms IH]; intros s w s' w' resp Hin; simpl in Hin.
  - apply list_elem_of_singleton in Hin. injection Hin as -> -> ->.
    exists []. simpl. rewrite app_nil_r.
    split_and!; try done; intros k en Hk; by rewrite lookup_nil in Hk.
  - apply list_elem_of_bind in Hin as [[[s1 w1] r1] [Hin Hsend]]. simpl in Hin.
    apply send_outcome_fields in Hsend
      as (m' & n & Hwk & Hpj & Hcx & Hcarry & Hcalls & Hn & Hlen & _
          & Hnil & Hpos).
    simpl in Hwk, Hpj, Hcx, Hcarry.
    assert (Hone : forall rp,
      rp <> Some (mkResponse StatusOK true) ->
      (rp = Some (http_Error StatusInternalServerError) \/ rp = None) ->
      0 < n ->
      (s', w', resp) ∈ [(s1, w1, rp)] ->
      exists sent : list (SegmentEvent * nat),
        calls w' = calls w ++ batch_calls ctx sent /\
        length sent <= length (m :: ms) /\
        Forall2 (fun m en =>
                   WriteKey en.1 = writeKey /\
                   ProjectId (Message en.1) = pid /\
                   Context (Message en.1) = batchContext /\
                   carries_message m en.1 /\
                   en.2 <= length (destinations s))
          (take (length sent) (m :: ms)) sent /\
        (forall k en, sent !! k = Some en -> S k < length sent ->
           en.2 = length (destinations s)) /\
        (resp = Some (mkResponse StatusOK true) ->
           length sent = length (m :: ms) /\
           Forall (fun en => en.2 = length (destinations s)) sent) /\
        (resp <> Some (mkResponse StatusOK true) ->
           (resp = Some (http_Error StatusInternalServerError) \/ resp = None) /\
           exists en, last sent = Some en /\ 0 < en.2)).
    { intros rp Hrp Hcase Hn0 H. apply list_elem_of_singleton in H.
      injection H as -> -> ->.
      exists [(m', n)]. simpl. rewrite app_nil_r. split_and!.
      - done.
      - lia.
      - rewrite take_0. constructor; [simpl; by split_and!|constructor].
      - intros k en _ Hk. lia.
      - done.
      - intros _. split; [done|]. by exists (m', n). }
    destruct r1 as [[err|]|].
    + apply (Hone (Some (http_Error StatusInternalServerError)));
        [done|by left|by apply Hpos|done].
    + apply IH in Hin
        as (sent & Hcalls' & Hle & Hall & Hmid & Hok & Hbad).
      rewrite Hlen in Hall, Hmid, Hok. rewrite (Hnil eq_refl) in Hcalls.
      exists ((m', length (destinations s)) :: sent). simpl. split_and!.
      * by rewrite Hcalls', Hcalls, app_assoc.
      * lia.
      * constructor; [by split_and!|done].
      * intros [|k] en Hk Hlt; simpl in Hk.
        -- by injection Hk as <-.
        -- apply (Hmid k en Hk). lia.
      * intros Hresp. destruct (Hok Hresp) as [Heq Hfull].
        split; [by rewrite Heq|]. by constructor.
      * intros Hresp. destruct (Hbad Hresp) as (Hcase & en & Hlast & Hen).
        split; [done|]. exists en. split; [|done].
        destruct sent as [|en' sent']; [discriminate Hlast|done].
    + apply (Hone None); [done|by right|by apply Hpos|done].
Qed.

(** [handleBatch], message by message: what [handleBatch_loop_trace] says
    of its loop, for the write key of the basic authorization, the
    project id looked up for it and the context of the batch.  A request
    that is turned away before the loop sends nothing. *)
Lemma handleBatch_trace (s : Segment) (r : Request rt) (w : World)
    (s' : Segment) (w' : World) (resp : option Response)
    (batch : SegmentBatch) :
  json_DecodeBatch rt (req_Body r) = Some batch ->
  (s', w', resp) ∈ handleBatch rt s r w ->
  exists sent : list (SegmentEvent * nat),
    calls w' = calls w ++ batch_calls (contextTimeout rt r) sent /\
    length sent <= length (Messages batch) /\
    Forall2 (fun m en =>
               fst <$> BasicAuth r = Some (WriteKey en.1) /\
               ProjectId (Message en.1) = projectId s (WriteKey en.1) /\
               Context (Message en.1) = batch_Context batch /\
               carries_message m en.1 /\
               en.2 <= length (destinations s))
      (take (length sent) (Messages batch)) sent /\
    (forall k en, sent !! k = Some en -> S k < length sent ->
       en.2 = length (destinations s)) /\
    (resp = Some (mkResponse StatusOK true) ->
       length sent = length (Messages batch) /\
       Forall (fun en => en.2 = length (destinations s)) sent) /\
    (resp = Some (http_Error StatusInternalServerError) \/ resp = None ->
       exists en, last sent = Some en /\ 0 < en.2).
Proof.
  unfold handleBatch. intros Hdec Hin. rewrite Hdec in Hin.
  assert (Hnone : (s', w', resp) ∈ [(s, w, Some (http_Error StatusUnauthorized))] ->
    exists sent : list (SegmentEvent * nat),
      calls w' = calls w ++ batch_calls (contextTimeout rt r) sent /\
      length sent <= length (Messages batch) /\
      Forall2 (fun m en =>
                 fst <$> BasicAuth r = Some (WriteKey en.1) /\
                 ProjectId (Message en.1) = projectId s (WriteKey en.1) /\
                 Context (Message en.1) = batch_Context batch /\
                 carries_message m en.1 /\
                 en.2 <= length (destinations s))
        (take (length sent) (Messages batch)) sent /\
      (forall k en, sent !! k = Some en -> S k < length sent ->
         en.2 = length (destinations s)) /\
      (resp = Some (mkResponse StatusOK true) ->
         length sent = length (Messages batch) /\
         Forall (fun en => en.2 = length (destinations s)) sent) /\
      (resp = Some (http_Error StatusInternalServerError) \/ resp = None ->
         exists en, last sent = Some en /\ 0 < en.2)).
  { intros H. apply list_elem_of_singleton in H. injection H as -> -> ->.
    exists []. simpl. rewrite app_nil_r, take_0.
    split_and!; try done; try lia.
    by intros [|]. }
  destruct (BasicAuth r) as [[writeKey pw]|]; [|by apply Hnone].
  destruct (decide (projectId s writeKey = EmptyString)); [by apply Hnone|].
  apply handleBatch_loop_trace in Hin
    as (sent & Hcalls & Hle & Hall & Hmid & Hok & Hbad).
  exists sent. split_and!; try done.
  - eapply Forall2_impl; [exact Hall|].
    intros m en (Hwk & Hpj & Hcx & Hcarry & Hn). simpl.
    rewrite Hwk, Hpj. by split_and!.
  - intros Hresp. apply Hbad. by destruct Hresp as [->| ->].
Qed.

(** C7.  When the batch carries a shared context, [handleBatch] sends one
    event for each message of the batch it gets to, in the order of the
    batch, and every [Send] it makes is for one of these events.  The
    event of a message has the shared context of the batch as its
    context, whatever context the message had (replaced, not merged),
    and carries the other fields of that message, under the write key of
    the request and its project id.  The event already has that context
    in every [Send], from the first destination on.  Every event but the
    last went to all the destinations, and when the handler answers 200
    every message of the batch was sent so, to all the destinations. *)
Theorem C7_batch_context_overwrites (s : Segment) (r : Request rt) (w : World)
    (s' : Segment) (w' : World) (resp : option Response)
    (batch : SegmentBatch) (shared : gmap string JValue) :
  json_DecodeBatch rt (req_Body r) = Some batch ->
  batch_Context batch = Some shared ->
  (s', w', resp) ∈ handleBatch rt s r w ->
  exists sent : list (SegmentEvent * nat),
    calls w' = calls w ++ batch_calls (contextTimeout rt r) sent /\
    length sent <= length (Messages batch) /\
    Forall2 (fun m en =>
               Context (Message en.1) = Some shared /\
               carries_message m en.1 /\
               fst <$> BasicAuth r = Some (WriteKey en.1) /\
               ProjectId (Message en.1) = projectId s (WriteKey en.1) /\
               en.2 <= length (destinations s))
      (take (length sent) (Messages batch)) sent /\
    (forall k en, sent !! k = Some en -> S k < length sent ->
       en.2 = length (destinations s)) /\
    (resp = Some (mkResponse StatusOK true) ->
       length sent = length (Messages batch) /\
       Forall (fun en => en.2 = length (destinations s)) sent).
Proof.
  intros Hdec Hshared Hin.
  destruct (handleBatch_trace s r w s' w' resp batch Hdec Hin)
    as (sent & Hcalls & Hle & Hall & Hmid & Hok & _).
  exists sent. split_and!; try done.
  eapply Forall2_impl; [exact Hall|].
  intros m en (Hwk & Hpj & Hcx & Hcarry & Hn). rewrite <- Hshared.
  by split_and!.
Qed.

(** C9.  [handleBatch] assigns the context of the batch to every event it
    sends, whether the batch has one or not.  It sends one event for
    each message of the batch it gets to, in the order of the batch, and
    every [Send] it makes is for one of these events; the event of a
    message carries the fields of that message but for its context, which
    is that of the batch.  So with no batch context the event goes out
    with no context, whatever context the message carried.  When the
    handler answers 200, every message of the batch was sent so, to all
    the destinations. *)
Theorem C9_batch_context_unconditional (s : Segment) (r : Request rt)
    (w : World) (s' : Segment) (w' : World) (resp : option Response)
    (batch : SegmentBatch) :
  json_DecodeBatch rt (req_Body r) = Some batch ->
  (s', w', resp) ∈ handleBatch rt s r w ->
  exists sent : list (SegmentEvent * nat),
    calls w' = calls w ++ batch_calls (contextTimeout rt r) sent /\
    length sent <= length (Messages batch) /\
    Forall2 (fun m en =>
               Context (Message en.1) = batch_Context batch /\
               (batch_Context batch = None -> Context (Message en.1) = None) /\
               carries_message m en.1 /\
               en.2 <= length (destinations s))
      (take (length sent) (Messages batch)) sent /\
    (resp = Some (mkResponse StatusOK true) ->
       length sent = length (Messages batch) /\
       Forall (fun en => en.2 = length (destinations s)) sent).
Proof.
  intros Hdec Hin.
  destruct (handleBatch_trace s r w s' w' resp batch Hdec Hin)
    as (sent & Hcalls & Hle & Hall & _ & Hok & _).
  exists sent. split_and!; try done.
  eapply Forall2_impl; [exact Hall|].
  intros m en (Hwk & Hpj & Hcx & Hcarry & Hn).
  split_and!; try done. intros Hnone. by rewrite Hcx.
Qed.

End HandlerProperties.

(** C7, at a batch with a shared context whose first message has a
    context of its own: the handler answers 200 and the single
    destination is called twice, with the events of the two messages in
    their order, both with the shared context. *)
Lemma C7_batch_context_overwrites_witness :
  exists s' w' e1 e2,
    (s', w', Some (mkResponse StatusOK true))
      ∈ handleBatch Fixtures.rt0 Fixtures.seg1
          (Fixtures.batch_request "key" (Some Fixtures.shared)) world0 /\
    calls w' = [mkCall 0 Fixtures.ctx0 (MsgEvent e1);
                mkCall 0 Fixtures.ctx0 (MsgEvent e2)] /\
    Context (Message e1) = Some Fixtures.shared /\
    Context (Message e2) = Some Fixtures.shared /\
    MessageId (Message e1) = "m1" /\
    MessageId (Message e2) = "m2".
Proof.
  assert (exists s' w',
    (s', w', Some (mkResponse StatusOK true))
      ∈ handleBatch Fixtures.rt0 Fixtures.seg1
          (Fixtures.batch_request "key" (Some Fixtures.shared)) world0)
    as (s' & w' & Hin)
    by (eexists _, _; vm_compute; apply list_elem_of_here).
  destruct (C7_batch_context_overwrites Fixtures.rt0 Fixtures.seg1
              (Fixtures.batch_request "key" (Some Fixtures.shared)) world0
              s' w' _ (Fixtures.batch_of (Some Fixtures.shared)) Fixtures.shared
              eq_refl eq_refl Hin) as (sent & Hcalls & _ & Hall & _ & Hok).
  destruct (Hok eq_refl) as [Hlen Hfull].
  destruct sent as [|[e1 n1] [|[e2 n2] [|en sent]]]; try discriminate Hlen.
  apply Forall_cons in Hfull as [Hn1 Hfull].
  apply Forall_inv in Hfull as Hn2. simpl in Hn1, Hn2. subst n1 n2.
  apply Forall2_cons_1 in Hall as [(Hc1 & Hm1 & _) Hall].
  apply Forall2_cons_1 in Hall as [(Hc2 & Hm2 & _) _].
  destruct Hm1 as (_ & _ & _ & _ & _ & _ & _ & _ & _ & Hid1 & _).
  destruct Hm2 as (_ & _ & _ & _ & _ & _ & _ & _ & _ & Hid2 & _).
  exists s', w', e1, e2. split_and!; try done.
  - by apply Hid1.
  - by apply Hid2.
Defined.

(** C9, at the same batch without a shared context: the handler answers
    200, the two events go out in their order, and the context of the
    first message is lost. *)
Lemma C9_batch_context_unconditional_witness :
  exists s' w' e1 e2,
    (s', w', Some (mkResponse StatusOK true))
      ∈ handleBatch Fixtures.rt0 Fixtures.seg1
          (Fixtures.batch_request "key" None) world0 /\
    calls w' = [mkCall 0 Fixtures.ctx0 (MsgEvent e1);
                mkCall 0 Fixtures.ctx0 (MsgEvent e2)] /\
    Context (Message e1) = None /\
    Context (Message e2) = None /\
    MessageId (Message e1) = "m1" /\
    MessageId (Message e2) = "m2".
Proof.
  assert (exists s' w',
    (s', w', Some (mkResponse StatusOK true))
      ∈ handleBatch Fixtures.rt0 Fixtures.seg1
          (Fixtures.batch_request "key" None) world0)
    as (s' & w' & Hin)
    by (eexists _, _; vm_compute; apply list_elem_of_here).
  destruct (C9_batch_context_unconditional Fixtures.rt0 Fixtures.seg1
              (Fixtures.batch_request "key" None) world0 s' w' _
              (Fixtures.batch_of None) eq_refl Hin)
    as (sent & Hcalls & _ & Hall & Hok).
  destruct (Hok eq_refl) as [Hlen Hfull].
  destruct sent as [|[e1 n1] [|[e2 n2] [|en sent]]]; try discriminate Hlen.
  apply Forall_cons in Hfull as [Hn1 Hfull].
  apply Forall_inv in Hfull as Hn2. simpl in Hn1, Hn2. subst n1 n2.
  apply Forall2_cons_1 in Hall as [(_ & Hc1 & Hm1 & _) Hall].
  apply Forall2_cons_1 in Hall as [(_ & Hc2 & Hm2 & _) _].
  destruct Hm1 as (_ & _ & _ & _ & _ & _ & _ & _ & _ & Hid1 & _).
  destruct Hm2 as (_ & _ & _ & _ & _ & _ & _ & _ & _ & Hid2 & _).
  exists s', w', e1, e2. split_and!; try done.
  - by apply Hc1.
  - by apply Hc2.
  - by apply Hid1.
  - by apply Hid2.
Defined.

(** ** Project resolution *)

(** C8.  A request whose write key resolves to the empty project id is
    answered with a 4xx status and calls no destination: the world, with
    its log of [Send] calls, and the destinations are as before.  For a
    batch the write key is the user of the basic authorization and the
    status is 400 when the body does not decode and 401 otherwise; for a
    single event the write key is the one of the decoded event and the
    status is 400. *)
Theorem C8_empty_project_rejected (rt : Runtime) (s : Segment) (w : World)
    (writeKey : string) :
  projectId s writeKey = EmptyString ->
  (forall (r : Request rt) pw s' w' resp,
     BasicAuth r = Some (writeKey, pw) ->
     (s', w', resp) ∈ handleBatch rt s r w ->
     s' = s /\ w' = w /\
     resp = Some (http_Error
                    (if json_DecodeBatch rt (req_Body r) is Some _
                     then StatusUnauthorized else StatusBadRequest))) /\
  (forall (r : Request rt) event s' w' resp,
     event_of_request rt r = Some event ->
     WriteKey event = writeKey ->
     (s', w', resp) ∈ handleEvent rt s r w ->
     s' = s /\ w' = w /\ resp = Some (http_Error StatusBadRequest)).
Proof.
  intros Hempty. split.
  - intros r pw s' w' resp Hauth Hin. unfold handleBatch in Hin.
    rewrite Hauth in Hin.
    destruct (json_DecodeBatch rt (req_Body r)) as [batch|].
    + rewrite decide_True in Hin by done.
      apply list_elem_of_singleton in Hin. by injection Hin as -> -> ->.
    + apply list_elem_of_singleton in Hin. by injection Hin as -> -> ->.
  - intros r event s' w' resp Hev Hwk Hin.
    unfold handleEvent in Hin. unfold event_of_request in Hev.
    destruct (if decide (Method r = "GET")
              then base64_DecodeString rt (FormValue r "data")
              else Some (req_Body r)) as [body|]; [|discriminate Hev].
    simpl in Hev. rewrite Hev in Hin. simpl in Hin.
    rewrite Hwk, Hempty in Hin. rewrite decide_True in Hin by done.
    apply list_elem_of_singleton in Hin. by injection Hin as -> -> ->.
Qed.

(** C8, at the dispatcher of the fixtures, which knows the write key
    [key] only: a batch and an event with another key are turned down
    and the log of calls stays empty. *)
Lemma C8_empty_project_rejected_witness :
  Fixtures.pid "other" = EmptyString /\
  handleBatch Fixtures.rt0 Fixtures.seg1
    (Fixtures.batch_request "other" (Some Fixtures.shared)) world0
    = [(Fixtures.seg1, world0, Some (mkResponse 401 false))] /\
  handleEvent Fixtures.rt0 Fixtures.seg1
    (Fixtures.event_request
       (mkSegmentEvent "other" (Fixtures.msg_with "m1" None))) world0
    = [(Fixtures.seg1, world0, Some (mkResponse 400 false))] /\
  forall s' w' resp,
    (s', w', resp)
      ∈ handleBatch Fixtures.rt0 Fixtures.seg1
          (Fixtures.batch_request "other" (Some Fixtures.shared)) world0 ++
        handleEvent Fixtures.rt0 Fixtures.seg1
          (Fixtures.event_request
             (mkSegmentEvent "other" (Fixtures.msg_with "m1" None))) world0 ->
    calls w' = [] /\ exists code, resp = Some (http_Error code) /\
                       (400 <= code < 500)%Z.
Proof.
  split; [reflexivity|]. split; [reflexivity|]. split; [reflexivity|].
  intros s' w' resp Hin.
  destruct (C8_empty_project_rejected Fixtures.rt0 Fixtures.seg1 world0
              "other" eq_refl) as [Hbatch Hevent].
  apply elem_of_app in Hin as [Hin|Hin].
  - destruct (Hbatch (Fixtures.batch_request "other" (Some Fixtures.shared))
                EmptyString _ _ _ eq_refl Hin) as (_ & -> & ->).
    split; [done|]. exists 401%Z. split; [reflexivity|]. lia.
  - destruct (Hevent (Fixtures.event_request
                        (mkSegmentEvent "other" (Fixtures.msg_with "m1" None)))
                (mkSegmentEvent "other" (Fixtures.msg_with "m1" None))
                _ _ _ eq_refl eq_refl Hin) as (_ & -> & ->).
    split; [done|]. exists 400%Z. split; [reflexivity|]. lia.
Defined.

(** ** The firehose sink *)

(** [NewDelivery] leaves the channel nil and bounds the batch size. *)
Lemma NewDelivery_spec (rt : Runtime) (config : DeliveryConfig) (d : Delivery) :
  NewDelivery rt config = Some d ->
  messages d = None /\ (1 <= size d <= 500)%Z /\
  streamName d = StreamName config.
Proof.
  unfold NewDelivery. intros H.
  destruct (decide (StreamRegion config = EmptyString
                    \/ StreamName config = EmptyString)); [discriminate H|].
  injection H as <-. simpl. split; [done|]. split; [|done].
  destruct (decide (BatchSize config <= 0 \/ BatchSize config > 500)%Z); lia.
Qed.

(** C10.  While the channel of a firehose sink is nil, which is so from
    [NewDelivery] until [Process] creates it, [Send] has one outcome for
    every context and message: it returns the error of line 200 at once,
    without parking and without touching the sink.  A dispatcher holding
    such a sink at position [k] therefore never returns nil from [send],
    calls no destination after position [k], and returns that error
    whenever the fan-out gets to position [k]. *)
Theorem C10_send_before_process_not_ready (rt : Runtime) (sink : DeliverySink) :
  messages (dv sink) = None ->
  let err := ErrNotReady (streamName (dv sink)) (fh_Endpoint (dv sink)) in
  (forall ctx m, Delivery_Send rt ctx m sink = [(sink, Returns (Some err))]) /\
  (forall s k ctx m w s' w' r,
     destinations s !! k
       = Some (mkDest DeliverySink (Delivery_Destination rt) sink) ->
     (s', w', r) ∈ send rt s ctx m w ->
     exists cs,
       calls w' = calls w ++ cs /\
       1 <= length cs <= S k /\
       r <> Returns None /\
       (length cs = S k -> r = Returns (Some err))).
Proof.
  intros Hnil err.
  assert (Hsend : forall ctx m,
            Delivery_Send rt ctx m sink = [(sink, Returns (Some err))]).
  { intros ctx m. unfold Delivery_Send. by rewrite Hnil. }
  split; [exact Hsend|].
  intros s k ctx m w s' w' r Hk Hin.
  apply send_inv in Hin as (m' & out & cs & _ & Hloop & _ & Hcalls).
  apply send_loop_spec in Hloop as (n & Hn & -> & _ & _ & Hcall & Hall & Hpos).
  assert (Hat : forall d' res,
            (d', res) ∈ dest_Send ctx (MsgEvent m')
                          (mkDest DeliverySink (Delivery_Destination rt) sink) ->
            res = Returns (Some err)).
  { intros d' res Hres. unfold dest_Send in Hres. simpl in Hres.
    rewrite Hsend in Hres. apply list_elem_of_singleton in Hres.
    by injection Hres as _ ->. }
  assert (Hle : n <= S k).
  { destruct (decide (n <= S k)) as [|Hgt]; [done|].
    destruct (Hcall k _ ltac:(lia) Hk) as (d' & _ & Hres).
    rewrite decide_False in Hres by lia. apply Hat in Hres. discriminate Hres. }
  assert (Hlast : n = S k -> r = Returns (Some err)).
  { intros ->. destruct (Hcall k _ ltac:(lia) Hk) as (d' & _ & Hres).
    rewrite decide_True in Hres by done. by apply Hat in Hres. }
  exists ((fun j => mkCall j ctx (MsgEvent m')) <$> seq 0 n).
  assert (Hne : r <> Returns None).
  { intros ->. specialize (Hall eq_refl). apply lookup_lt_Some in Hk.
    assert (n = S k) as Heq by lia. specialize (Hlast Heq). discriminate Hlast. }
  rewrite length_fmap, length_seq. split_and!; try done.
  assert (0 < n) by (by apply Hpos). lia.
Qed.

(** C10, at a sink fresh from [NewDelivery] placed first in the
    dispatcher of the fixtures. *)
Lemma C10_send_before_process_not_ready_witness :
  NewDelivery Fixtures.rt0
    (mkDeliveryConfig "http://localhost:4573" "us-west-2" "test-stream" 3 0)
    = Some (dv Fixtures.delivery3) /\
  Delivery_Send Fixtures.rt0 Fixtures.ctx0 (Fixtures.E 1) Fixtures.delivery3
    = [(Fixtures.delivery3,
        Returns (Some (ErrNotReady "test-stream" "http://localhost:4573")))] /\
  forall s' w' r,
    (s', w', r) ∈ send Fixtures.rt0 Fixtures.seg0 Fixtures.ctx0
                    (Fixtures.ev "1") world0 ->
    r = Returns (Some (ErrNotReady "test-stream" "http://localhost:4573")) /\
    length (calls w') = 1.
Proof.
  split; [reflexivity|].
  destruct (C10_send_before_process_not_ready Fixtures.rt0 Fixtures.delivery3
              eq_refl) as [Hsend Hfan].
  split; [apply Hsend|].
  intros s' w' r Hin.
  destruct (Hfan Fixtures.seg0 0 _ _ _ _ _ _ eq_refl Hin)
    as (cs & Hcalls & Hlen & Hr & Hlast).
  simpl in Hcalls. rewrite Hcalls.
  assert (length cs = 1) as Hone by lia. split; [by apply Hlast|done].
Defined.

Section DeliveryProperties.
Variable rt : Runtime.

Lemma Process_send_zero (records : list (option FhRecord)) (s : DeliverySink) :
  Process_send rt records 0 s = (s, None).
Proof. reflexivity. Qed.

Lemma Process_send_puts (records : list (option FhRecord)) (i : nat)
    (s : DeliverySink) :
  i <> 0 ->
  dv_puts (Process_send rt records i s).1 = dv_puts s ++ [take i records] /\
  dv (Process_send rt records i s).1 = dv s /\
  dv_loop (Process_send rt records i s).1 = dv_loop s.
Proof.
  intros Hi. unfold Process_send. rewrite decide_False by done.
  by destruct (fh_PutRecordBatch _ _ _ _).
Qed.

Lemma run_schedule_app {S A : Type}
    (step : A -> S -> option (S * option ProcessResult))
    (h1 h2 : list A) (s s1 : S) :
  (forall a s s', step a s <> Some (s', Some ProcRunning)) ->
  run_schedule step h1 s = Some (s1, ProcRunning) ->
  run_schedule step (h1 ++ h2) s = run_schedule step h2 s1.
Proof.
  intros Hstep. revert s. induction h1 as [|a h1 IH]; intros s Hrun; simpl in *.
  - by injection Hrun as ->.
  - destruct (step a s) as [[s' [r|]]|] eqn:Ha; [|by apply IH|done].
    injection Hrun as -> ->. by apply Hstep in Ha.
Qed.

Lemma Process_step_not_running (a : DeliveryStep) (s s' : DeliverySink) :
  Process_step rt a s <> Some (s', Some ProcRunning).
Proof.
  unfold Process_step, place, on_message.
  destruct (dv_loop s) as [|records i|]; [done| |done].
  destruct a as [m|[| |]].
  - destruct (messages (dv s)) as [c|]; [|done].
    destruct (chan_has_room c); [done|].
    destruct (decide (ch_cap c = 0)); [|done].
    destruct (json_Marshal rt m); [done|]. by destruct (decide _).
  - destruct (messages (dv s)) as [[cap [|m buf]]|]; try done.
    destruct (json_Marshal rt m); [done|]. by destruct (decide _).
  - by destruct (Process_send rt records i s).
  - done.
Qed.

Lemma accepted_snoc (h : list DeliveryStep) (a : DeliveryStep) :
  accepted (h ++ [a])
  = accepted h ++ match a with Accept m => [m] | Select _ => [] end.
Proof. unfold accepted. rewrite omap_app. by destruct a. Qed.

Lemma picked_snoc (h : list DeliveryStep) (a : DeliveryStep) :
  picked (h ++ [a])
  = picked h + match a with Select PickMessage => 1 | _ => 0 end.
Proof.
  unfold picked. rewrite omap_app, length_app. by destruct a as [m|[| |]].
Qed.

Lemma timer_free_snoc (h : list DeliveryStep) (a : DeliveryStep) :
  timer_free (h ++ [a]) -> timer_free h /\ a <> Select PickTimer.
Proof.
  unfold timer_free. rewrite Forall_app, Forall_singleton. tauto.
Qed.

Lemma running_inv_step (sz : Z) (puts0 : list (list (option FhRecord)))
    (h : list DeliveryStep) (a : DeliveryStep) (s s' : DeliverySink) :
  (1 <= sz)%Z ->
  running_inv rt sz puts0 h s ->
  Process_step rt a s = Some (s', None) ->
  running_inv rt sz puts0 (h ++ [a]) s'.
Proof.
  intros Hsz (records & i & datas & puts & Hloop & Hlen & Hi & Hsize & Hpk
              & Hmsg & Hmar & Hputs & Hcat & Hfull) Hstep.
  unfold Process_step in Hstep. rewrite Hloop in Hstep.
  unfold running_inv. rewrite accepted_snoc, picked_snoc.
  destruct a as [m|[| |]].
  - (* a concurrent Send places m *)
    unfold place in Hstep. rewrite Hmsg, Hloop in Hstep.
    destruct (chan_has_room _).
    + injection Hstep as <-. exists records, i, datas, puts. simpl.
      rewrite Nat.add_0_r, length_app, drop_app_le, take_app_le by lia.
      split_and!; try done; [lia|].
      intros Htf. by apply timer_free_snoc in Htf as [Htf _]; auto.
    + simpl in Hstep. rewrite decide_False in Hstep by lia. discriminate Hstep.
  - (* the loop takes a message *)
    rewrite Hmsg in Hstep.
    destruct (drop (picked h) (accepted h)) as [|m buf] eqn:Hdrop;
      [discriminate Hstep|].
    assert (Hm : accepted h !! picked h = Some m).
    { pose proof (lookup_drop (accepted h) (picked h) 0) as Hl.
      by rewrite Hdrop, Nat.add_0_r in Hl. }
    pose proof (lookup_lt_Some _ _ _ Hm) as Hlt.
    unfold on_message in Hstep.
    destruct (json_Marshal rt m) as [e|data] eqn:Hdata; [discriminate Hstep|].
    rewrite decide_True in Hstep by done. injection Hstep as <-.
    assert (Htake : take (S i) (<[i:=Some (mkRecord (data +:+ newline))]> records)
                    = take i records ++ [record_of data]).
    { rewrite (take_S_r _ _ (record_of data))
        by (by apply list_lookup_insert_eq).
      by rewrite take_insert_ge by lia. }
    assert (Hdatas : Forall2 (fun m data => json_Marshal rt m = inr data)
                       (take (picked h + 1) (accepted h)) (datas ++ [data])).
    { rewrite Nat.add_1_r, (take_S_r _ _ m) by done.
      apply Forall2_app; [done|]. by constructor. }
    assert (Hbuf : drop (picked h + 1) (accepted h ++ []) = buf).
    { rewrite app_nil_r, Nat.add_1_r. rewrite (drop_S _ _ _ Hm) in Hdrop.
      by injection Hdrop. }
    unfold loop_end. simpl. rewrite Hsize, orb_false_r.
    destruct (bool_decide (Z.of_nat (S i) = sz)) eqn:Hfl.
    + apply bool_decide_eq_true in Hfl.
      destruct (Process_send_puts
                  (<[i:=Some (mkRecord (data +:+ newline))]> records) (S i)
                  (set_messages (Some (mkChan (Z.to_nat (sz * 2)) buf)) s)
                  ltac:(lia)) as (Hp & Hdv & _).
      exists (<[i:=Some (mkRecord (data +:+ newline))]> records), 0,
        (datas ++ [data]),
        (puts ++ [take (S i) (<[i:=Some (mkRecord (data +:+ newline))]> records)]).
      simpl. rewrite Hdv, Hp, length_insert, Hbuf. simpl.
      rewrite ?app_nil_r. split_and!; try done; try lia.
      * by rewrite Hputs, app_assoc.
      * rewrite concat_app. simpl. rewrite !app_nil_r, Htake, fmap_app.
        simpl. by rewrite app_assoc, Hcat.
      * intros Htf. apply timer_free_snoc in Htf as [Htf _].
        apply Forall_app. split; [by auto|]. apply Forall_singleton.
        rewrite length_take, length_insert. lia.
    + apply bool_decide_eq_false in Hfl.
      exists (<[i:=Some (mkRecord (data +:+ newline))]> records), (S i),
        (datas ++ [data]), puts.
      simpl. rewrite length_insert, Hbuf, app_nil_r.
      split_and!; try done; try lia.
      * by rewrite Htake, fmap_app, app_assoc, Hcat.
      * intros Htf. by apply timer_free_snoc in Htf as [Htf _]; auto.
  - (* the loop returns *)
    destruct (Process_send rt records i s). discriminate Hstep.
  - (* the timer fires *)
    injection Hstep as <-. unfold loop_end.
    rewrite Nat.add_0_r, app_nil_r, Hsize.
    rewrite (bool_decide_eq_false_2 (Z.of_nat i = sz)) by lia. simpl.
    destruct (bool_decide (0 < i)) eqn:Hfl.
    + apply bool_decide_eq_true in Hfl.
      destruct (Process_send_puts records i s ltac:(lia)) as (Hp & Hdv & _).
      exists records, 0, datas, (puts ++ [take i records]).
      simpl. rewrite Hdv, Hp. split_and!; try done; try lia.
      * by rewrite Hputs, app_assoc.
      * rewrite concat_app. simpl. by rewrite !app_nil_r.
      * intros Htf. by apply timer_free_snoc in Htf as [_ Htf].
    + exists records, i, datas, puts. simpl. split_and!; try done.
      intros Htf. by apply timer_free_snoc in Htf as [_ Htf].
Qed.

Lemma running_inv_run (sz : Z) (puts0 : list (list (option FhRecord)))
    (sched : list DeliveryStep) :
  forall h s s',
    (1 <= sz)%Z ->
    running_inv rt sz puts0 h s ->
    run_schedule (Process_step rt) sched s = Some (s', ProcRunning) ->
    running_inv rt sz puts0 (h ++ sched) s'.
Proof.
  induction sched as [|a sched IH]; intros h s s' Hsz Hinv Hrun; simpl in Hrun.
  - injection Hrun as <-. by rewrite app_nil_r.
  - destruct (Process_step rt a s) as [[s1 [r|]]|] eqn:Ha; [| |done].
    + injection Hrun as -> ->. by apply Process_step_not_running in Ha.
    + replace (h ++ a :: sched) with ((h ++ [a]) ++ sched)
        by (by rewrite <- app_assoc).
      apply (IH _ s1); [done| |done]. by eapply running_inv_step.
Qed.

(** A call of [Process] that is in its loop at the end of the schedule
    connected, and its state is the one described by [running_inv]. *)
Lemma Delivery_Process_running (sched : list DeliveryStep) (s s' : DeliverySink) :
  (1 <= size (dv s))%Z ->
  Delivery_Process rt sched s = Some (s', ProcRunning) ->
  running_inv rt (size (dv s)) (dv_puts s) sched s'.
Proof.
  intros Hsz Hrun. unfold Delivery_Process in Hrun.
  destruct (Connect rt (dv s)); [discriminate Hrun|].
  rewrite decide_False in Hrun by lia.
  apply (running_inv_run (size (dv s)) (dv_puts s) _ []) in Hrun; [done..|].
  exists (replicate (Z.to_nat (size (dv s))) None), 0, [], []. simpl.
  rewrite length_replicate, app_nil_r. split_and!; try done; try lia.
Qed.

(** Cancellation of a call of [Process] that is in its loop with [i]
    records buffered: the call puts those records, if any, as one batch,
    and returns. *)
Lemma Delivery_Process_cancel (sched : list DeliveryStep) (s0 s : DeliverySink)
    (records : list (option FhRecord)) (i : nat) :
  Delivery_Process rt sched s0 = Some (s, ProcRunning) ->
  dv_loop s = LoopRunning records i ->
  exists s' err,
    Delivery_Process rt (sched ++ [Select PickDone]) s0
      = Some (s', ProcReturns err) /\
    dv_loop s' = LoopIdle /\
    dv_puts s' = dv_puts s ++ (if decide (i = 0) then [] else [take i records]).
Proof.
  unfold Delivery_Process. intros Hrun Hloop.
  destruct (Connect rt (dv s0)); [discriminate Hrun|].
  destruct (decide (size (dv s0) < 0)%Z); [discriminate Hrun|].
  rewrite (run_schedule_app _ _ _ _ _ Process_step_not_running Hrun).
  simpl. unfold Process_step. rewrite Hloop.
  destruct (Process_send rt records i s) as [s1 err] eqn:Hsend.
  exists (set_loop LoopIdle s1), err. split; [done|]. split; [done|]. simpl.
  destruct (decide (i = 0)) as [->|Hi].
  - rewrite Process_send_zero in Hsend. injection Hsend as <- _.
    by rewrite app_nil_r.
  - destruct (Process_send_puts records i s Hi) as (Hp & _).
    by rewrite Hsend in Hp.
Qed.

(** C6.  Take a sink made by [NewDelivery] whose run loop, after any
    schedule, is at its [select] with [n > 0] records buffered.  The
    messages the loop has received are those already put followed by [n]
    pending ones; when the context is cancelled, [Process] makes exactly
    one more [PutRecordBatch] call, with the records of exactly those [n]
    pending messages in order, and returns. *)
Theorem C6_cancel_flushes_buffered_once (config : DeliveryConfig) (d : Delivery)
    (sched : list DeliveryStep) (s : DeliverySink)
    (records : list (option FhRecord)) (n : nat) :
  NewDelivery rt config = Some d ->
  Delivery_Process rt sched (new_sink d) = Some (s, ProcRunning) ->
  dv_loop s = LoopRunning records n ->
  0 < n ->
  exists flushed pending datas s' err,
    take (picked sched) (accepted sched) = flushed ++ pending /\
    length flushed = length (concat (dv_puts s)) /\
    length pending = n /\
    Forall2 (fun m data => json_Marshal rt m = inr data) pending datas /\
    Delivery_Process rt (sched ++ [Select PickDone]) (new_sink d)
      = Some (s', ProcReturns err) /\
    dv_loop s' = LoopIdle /\
    dv_puts s' = dv_puts s ++ [record_of <$> datas].
Proof.
  intros Hnew Hrun Hloop Hn.
  apply NewDelivery_spec in Hnew as (_ & Hsz & _).
  pose proof (Delivery_Process_running sched (new_sink d) s ltac:(simpl; lia) Hrun)
    as (records' & i & datas & puts & Hloop' & Hlen & Hi & _ & _ & _ & Hmar
        & Hputs & Hcat & _).
  rewrite Hloop in Hloop'. injection Hloop' as <- <-.
  simpl in Hputs. rewrite Hputs.
  destruct (Delivery_Process_cancel sched (new_sink d) s records n Hrun Hloop)
    as (s' & err & Hdone & Hidle & Hputs').
  rewrite decide_False in Hputs' by lia.
  pose proof (Forall2_length _ _ _ Hmar) as Hlen2.
  assert (Hall : length datas = length (concat puts) + n).
  { rewrite <- (length_fmap record_of), <- Hcat, length_app, length_take. lia. }
  exists (take (length (concat puts)) (take (picked sched) (accepted sched))),
    (drop (length (concat puts)) (take (picked sched) (accepted sched))),
    (drop (length (concat puts)) datas), s', err.
  split_and!; try done.
  - by rewrite take_drop.
  - rewrite length_take. lia.
  - rewrite length_drop. lia.
  - by apply Forall2_drop.
  - rewrite Hputs', Hputs. f_equal. f_equal.
    by rewrite fmap_drop, <- Hcat, drop_app_length.
Qed.

(** One turn of a run loop with [i] records buffered, below its batch
    size, that goes on after taking a message or after the timer: it
    puts one batch exactly when the message it takes is the one that
    fills the buffer, or when the timer fires over a buffer that is not
    empty; the batch is the whole buffer. *)
Lemma Process_step_flush (p : Pick) (s s' : DeliverySink)
    (records : list (option FhRecord)) (i : nat) :
  dv_loop s = LoopRunning records i ->
  i < length records ->
  (Z.of_nat i < size (dv s))%Z ->
  Process_step rt (Select p) s = Some (s', None) ->
  let due :=
    match p with
    | PickMessage => Z.of_nat (S i) = size (dv s)
    | PickTimer => 0 < i
    | PickDone => False
    end in
  (due /\ exists batch,
           length batch = (if p is PickMessage then S i else i) /\
           dv_puts s' = dv_puts s ++ [batch]) \/
  (~ due /\ dv_puts s' = dv_puts s).
Proof.
  intros Hloop Hi Hsz Hstep. unfold Process_step in Hstep.
  rewrite Hloop in Hstep. destruct p; simpl.
  - destruct (messages (dv s)) as [[cap [|m buf]]|]; try discriminate Hstep.
    unfold on_message in Hstep.
    destruct (json_Marshal rt m) as [e|data]; [discriminate Hstep|].
    rewrite decide_True in Hstep by done.
    injection Hstep as <-. unfold loop_end. simpl. rewrite orb_false_r.
    destruct (bool_decide (Z.of_nat (S i) = size (dv s))) eqn:Hfl.
    + apply bool_decide_eq_true in Hfl. left. split; [done|].
      exists (take (S i) (<[i:=Some (mkRecord (data +:+ newline))]> records)).
      simpl. split; [rewrite length_take, length_insert; lia|].
      by destruct (Process_send_puts
                     (<[i:=Some (mkRecord (data +:+ newline))]> records) (S i)
                     (set_messages (Some (mkChan cap buf)) s) ltac:(lia))
        as [-> _].
    + apply bool_decide_eq_false in Hfl. by right.
  - destruct (Process_send rt records i s). discriminate Hstep.
  - injection Hstep as <-. unfold loop_end.
    rewrite (bool_decide_eq_false_2 (Z.of_nat i = size (dv s))) by lia. simpl.
    destruct (bool_decide (0 < i)) eqn:Hfl.
    + apply bool_decide_eq_true in Hfl. left. split; [done|].
      exists (take i records). simpl. split; [rewrite length_take; lia|].
      by destruct (Process_send_puts records i s ltac:(lia)) as [-> _].
    + apply bool_decide_eq_false in Hfl. right. split; [lia|done].
Qed.

Lemma NewDelivery_size (config : DeliveryConfig) (d : Delivery) :
  NewDelivery rt config = Some d ->
  (1 <= BatchSize config <= 500)%Z ->
  size d = BatchSize config.
Proof.
  unfold NewDelivery. intros H Hb.
  destruct (decide (_ \/ _)); [discriminate H|]. injection H as <-. simpl.
  by rewrite decide_False by lia.
Qed.

(** Three-element batches in front of a short rest: the batches and the
    rest are determined by their concatenation. *)
Lemma chunks3_inv {A : Type} (puts : list (list A)) (rest : list A)
    (x1 x2 x3 x4 x5 x6 x7 : A) :
  concat puts ++ rest = [x1; x2; x3; x4; x5; x6; x7] ->
  Forall (fun b => length b = 3) puts ->
  length rest < 3 ->
  puts = [[x1; x2; x3]; [x4; x5; x6]] /\ rest = [x7].
Proof.
  intros Hcat Hall Hrest.
  assert (Hb : forall b : list A, length b = 3 -> exists a b' c, b = [a; b'; c]).
  { intros [|a [|b' [|c [|e l]]]] Hl; try discriminate Hl. eauto. }
  destruct puts as [|b1 puts].
  { simpl in Hcat. subst rest. simpl in Hrest. lia. }
  apply Forall_cons in Hall as [H1 Hall].
  apply Hb in H1 as (a1 & a2 & a3 & ->). simpl in Hcat.
  injection Hcat as -> -> -> Hcat.
  destruct puts as [|b2 puts].
  { simpl in Hcat. subst rest. simpl in Hrest. lia. }
  apply Forall_cons in Hall as [H2 Hall].
  apply Hb in H2 as (a4 & a5 & a6 & ->). simpl in Hcat.
  injection Hcat as -> -> -> Hcat.
  destruct puts as [|b3 puts]; [done|].
  apply Forall_cons in Hall as [H3 _].
  apply Hb in H3 as (a7 & a8 & a9 & ->). simpl in Hcat. discriminate Hcat.
Qed.

(** A call of [Process] that is in its loop takes one more step of the
    schedule that goes on. *)
Lemma Delivery_Process_extend (sched : list DeliveryStep) (a : DeliveryStep)
    (s0 s s' : DeliverySink) :
  Delivery_Process rt sched s0 = Some (s, ProcRunning) ->
  Process_step rt a s = Some (s', None) ->
  Delivery_Process rt (sched ++ [a]) s0 = Some (s', ProcRunning).
Proof.
  unfold Delivery_Process. intros Hrun Hstep.
  destruct (Connect rt (dv s0)); [discriminate Hrun|].
  destruct (decide (size (dv s0) < 0)%Z); [discriminate Hrun|].
  rewrite (run_schedule_app _ _ _ _ _ Process_step_not_running Hrun).
  simpl. by rewrite Hstep.
Qed.

(** The timer case is always ready: the turn goes on, puts the buffer as
    one batch when it is not empty and empties it, and does nothing
    else. *)
Lemma Process_step_timer_turn (s : DeliverySink)
    (records : list (option FhRecord)) (i : nat) :
  dv_loop s = LoopRunning records i ->
  (Z.of_nat i < size (dv s))%Z ->
  exists s',
    Process_step rt (Select PickTimer) s = Some (s', None) /\
    dv_puts s' = dv_puts s ++ (if decide (0 < i) then [take i records] else []) /\
    dv_loop s' = LoopRunning records (if decide (0 < i) then 0 else i) /\
    dv s' = dv s.
Proof.
  intros Hloop Hsz. unfold Process_step. rewrite Hloop.
  eexists. split; [reflexivity|]. unfold loop_end.
  rewrite (bool_decide_eq_false_2 (Z.of_nat i = size (dv s))) by lia. simpl.
  destruct (decide (0 < i)) as [Hi|Hi].
  - rewrite bool_decide_eq_true_2 by done. simpl.
    by destruct (Process_send_puts records i s ltac:(lia)) as (-> & -> & _).
  - rewrite bool_decide_eq_false_2 by done. simpl. by rewrite app_nil_r.
Qed.

(** The message case is ready when the channel holds a message: if the
    message marshals, the turn goes on, stores its record at [records[i]],
    and puts the buffer as one batch exactly when that record fills it. *)
Lemma Process_step_message_turn (s : DeliverySink)
    (records : list (option FhRecord)) (i cap : nat) (m : Msg)
    (buf : list Msg) (data : string) :
  dv_loop s = LoopRunning records i ->
  i < length records ->
  messages (dv s) = Some (mkChan cap (m :: buf)) ->
  json_Marshal rt m = inr data ->
  exists s',
    Process_step rt (Select PickMessage) s = Some (s', None) /\
    messages (dv s') = Some (mkChan cap buf) /\
    dv_puts s'
    = dv_puts s ++ (if decide (Z.of_nat (S i) = size (dv s))
                    then [take i records ++ [record_of data]] else []) /\
    dv_loop s'
    = LoopRunning (<[i:=record_of data]> records)
        (if decide (Z.of_nat (S i) = size (dv s)) then 0 else S i).
Proof.
  intros Hloop Hi Hch Hm. unfold Process_step. rewrite Hloop, Hch.
  unfold on_message. rewrite Hm, decide_True by done.
  eexists. split; [reflexivity|]. unfold loop_end. simpl.
  rewrite orb_false_r.
  assert (Htake : take (S i) (<[i:=Some (mkRecord (data +:+ newline))]> records)
                  = take i records ++ [record_of data]).
  { rewrite (take_S_r _ _ (record_of data))
      by (by apply list_lookup_insert_eq).
    by rewrite take_insert_ge by lia. }
  destruct (decide (Z.of_nat (S i) = size (dv s))) as [Hfl|Hfl].
  - rewrite bool_decide_eq_true_2 by done. simpl.
    destruct (Process_send_puts
                (<[i:=Some (mkRecord (data +:+ newline))]> records) (S i)
                (set_messages (Some (mkChan cap buf)) s) ltac:(lia))
      as (-> & -> & _).
    by rewrite Htake.
  - rewrite bool_decide_eq_false_2 by done. simpl. by rewrite app_nil_r.
Qed.

(** A concurrent [Send] that places its message on a buffered channel
    puts nothing and lets the loop go on. *)
Lemma Process_step_accept_no_put (s s' : DeliverySink) (m : Msg) (c : Chan)
    (r : option ProcessResult) :
  messages (dv s) = Some c ->
  0 < ch_cap c ->
  Process_step rt (Accept m) s = Some (s', r) ->
  dv_puts s' = dv_puts s /\ r = None.
Proof.
  intros Hch Hcap Hstep. unfold Process_step, place in Hstep.
  destruct (dv_loop s) as [|records i|]; try discriminate Hstep.
  rewrite Hch in Hstep.
  destruct (chan_has_room c); [by injection Hstep as <- <-|].
  rewrite decide_False in Hstep by lia. discriminate Hstep.
Qed.

(** C2.  For a sink made by [NewDelivery]:
    - with batch size 3, when seven messages are accepted and received by
      the run loop and no timer fires, whatever the interleaving of the
      [Send] calls and the turns of the loop, [Process] has made exactly
      two [PutRecordBatch] calls, with the records of the first three and
      of the next three messages, and on cancellation it makes one more,
      with the record of the seventh, and returns;
    - in general, a turn of the loop that takes a message or sees the
      timer fire puts a batch exactly when that message brings the buffer
      to the batch size, or when the timer fires over a non-empty buffer;
      the batch is then the whole buffer;
    - such turns exist and do just that.  From every state the loop
      reaches, the timer may fire: [Process] stays in its loop, and when
      [i > 0] records are buffered it makes one [PutRecordBatch] call with
      exactly these and empties the buffer, while over an empty buffer it
      makes no call.  When the channel holds a message that marshals, the
      loop may take it: [Process] stays in its loop with the record of the
      message buffered, and makes one call, with the whole buffer, exactly
      when the record is the one that brings the buffer to the batch
      size.  A [Send] that places its message triggers no call. *)
Theorem C2_flush_on_capacity_or_timer (config : DeliveryConfig) (d : Delivery) :
  NewDelivery rt config = Some d ->
  (BatchSize config = 3%Z ->
   forall sched s m1 m2 m3 m4 m5 m6 m7,
     accepted sched = [m1; m2; m3; m4; m5; m6; m7] ->
     picked sched = 7 ->
     timer_free sched ->
     Delivery_Process rt sched (new_sink d) = Some (s, ProcRunning) ->
     exists d1 d2 d3 d4 d5 d6 d7 s' err,
       Forall2 (fun m data => json_Marshal rt m = inr data)
         [m1; m2; m3; m4; m5; m6; m7] [d1; d2; d3; d4; d5; d6; d7] /\
       dv_puts s = [[record_of d1; record_of d2; record_of d3];
                    [record_of d4; record_of d5; record_of d6]] /\
       Delivery_Process rt (sched ++ [Select PickDone]) (new_sink d)
         = Some (s', ProcReturns err) /\
       dv_puts s' = [[record_of d1; record_of d2; record_of d3];
                     [record_of d4; record_of d5; record_of d6];
                     [record_of d7]]) /\
  (forall sched s records i p s',
     Delivery_Process rt sched (new_sink d) = Some (s, ProcRunning) ->
     dv_loop s = LoopRunning records i ->
     Process_step rt (Select p) s = Some (s', None) ->
     let due :=
       match p with
       | PickMessage => Z.of_nat (S i) = size d
       | PickTimer => 0 < i
       | PickDone => False
       end in
     (due /\ exists batch,
              length batch = (if p is PickMessage then S i else i) /\
              dv_puts s' = dv_puts s ++ [batch]) \/
     (~ due /\ dv_puts s' = dv_puts s)) /\
  (forall sched s records i,
     Delivery_Process rt sched (new_sink d) = Some (s, ProcRunning) ->
     dv_loop s = LoopRunning records i ->
     (exists s',
        Delivery_Process rt (sched ++ [Select PickTimer]) (new_sink d)
          = Some (s', ProcRunning) /\
        dv_puts s'
        = dv_puts s ++ (if decide (0 < i) then [take i records] else []) /\
        dv_loop s' = LoopRunning records (if decide (0 < i) then 0 else i)) /\
     (forall cap m buf data,
        messages (dv s) = Some (mkChan cap (m :: buf)) ->
        json_Marshal rt m = inr data ->
        exists s',
          Delivery_Process rt (sched ++ [Select PickMessage]) (new_sink d)
            = Some (s', ProcRunning) /\
          dv_puts s'
          = dv_puts s ++ (if decide (Z.of_nat (S i) = size d)
                          then [take i records ++ [record_of data]] else []) /\
          dv_loop s'
          = LoopRunning (<[i:=record_of data]> records)
              (if decide (Z.of_nat (S i) = size d) then 0 else S i)) /\
     (forall m s' r,
        Process_step rt (Accept m) s = Some (s', r) ->
        dv_puts s' = dv_puts s /\ r = None)).
Proof.
  intros Hnew. pose proof (NewDelivery_spec rt _ _ Hnew) as (_ & Hsz & _).
  split_and!.
  - intros Hthree sched s m1 m2 m3 m4 m5 m6 m7 Hacc Hpk Htf Hrun.
    pose proof (NewDelivery_size _ _ Hnew ltac:(lia)) as Hsize.
    rewrite Hthree in Hsize.
    pose proof (Delivery_Process_running sched (new_sink d) s
                  ltac:(simpl; lia) Hrun)
      as (records & i & datas & puts & Hloop & Hlen & Hi & _ & _ & _ & Hmar
          & Hputs & Hcat & Hfull).
    simpl in Hlen, Hputs, Hfull. rewrite Hsize in Hlen, Hfull. simpl in Hlen.
    rewrite Hacc, Hpk in Hmar. simpl in Hmar.
    pose proof Hmar as Hmar'.
    apply Forall2_cons_inv_l in Hmar as (d1 & ? & ? & Hmar & ->).
    apply Forall2_cons_inv_l in Hmar as (d2 & ? & ? & Hmar & ->).
    apply Forall2_cons_inv_l in Hmar as (d3 & ? & ? & Hmar & ->).
    apply Forall2_cons_inv_l in Hmar as (d4 & ? & ? & Hmar & ->).
    apply Forall2_cons_inv_l in Hmar as (d5 & ? & ? & Hmar & ->).
    apply Forall2_cons_inv_l in Hmar as (d6 & ? & ? & Hmar & ->).
    apply Forall2_cons_inv_l in Hmar as (d7 & ? & ? & Hmar & ->).
    apply Forall2_nil_inv_l in Hmar as ->. simpl in Hcat.
    apply chunks3_inv in Hcat as [-> Hbuf];
      [|by apply Hfull|rewrite length_take; lia].
    destruct (Delivery_Process_cancel sched (new_sink d) s records i Hrun Hloop)
      as (s' & err & Hdone & _ & Hputs').
    destruct (decide (i = 0)) as [->|_]; [discriminate Hbuf|].
    rewrite Hbuf, Hputs in Hputs'.
    by exists d1, d2, d3, d4, d5, d6, d7, s', err.
  - intros sched s records i p s' Hrun Hloop Hstep.
    pose proof (Delivery_Process_running sched (new_sink d) s
                  ltac:(simpl; lia) Hrun)
      as (records' & i' & _ & _ & Hloop' & Hlen & Hi & Hsize & _).
    rewrite Hloop in Hloop'. injection Hloop' as <- <-. simpl in Hsize, Hlen.
    rewrite <- Hsize.
    apply (Process_step_flush p s s' records i); [done|done|lia|done].
  - intros sched s records i Hrun Hloop.
    pose proof (Delivery_Process_running sched (new_sink d) s
                  ltac:(simpl; lia) Hrun)
      as (records' & i' & _ & _ & Hloop' & Hlen & Hi & Hsize & _ & Hch & _).
    rewrite Hloop in Hloop'. injection Hloop' as <- <-. simpl in Hsize, Hlen.
    split_and!.
    + destruct (Process_step_timer_turn s records i Hloop ltac:(lia))
        as (s' & Hstep & Hputs & Hloop' & _).
      exists s'. split; [|done].
      by apply (Delivery_Process_extend sched _ (new_sink d) s s').
    + intros cap m buf data Hch' Hm.
      destruct (Process_step_message_turn s records i cap m buf data Hloop Hi
                  Hch' Hm) as (s' & Hstep & _ & Hputs & Hloop').
      rewrite Hsize in Hputs, Hloop'.
      exists s'. split; [|done].
      by apply (Delivery_Process_extend sched _ (new_sink d) s s').
    + intros m s' r Hstep.
      apply (Process_step_accept_no_put s s' m _ r Hch); [simpl; lia|done].
Qed.

End DeliveryProperties.

(** C2, at the sink of batch size 3 of the fixtures.  For one of the
    interleavings of seven messages, six of which fill the channel before
    the loop takes any: two batches of three, then one of one on
    cancellation.  For the timer: it fires over one buffered record,
    which is put as a batch of one, and fires again over the empty
    buffer, which puts nothing.  And for the capacity: with two records
    buffered and a third message in the channel, the loop takes the
    message and puts the three records as one batch. *)
Lemma C2_flush_on_capacity_or_timer_witness :
  let sched :=
    [Accept (Fixtures.E 1); Accept (Fixtures.E 2); Accept (Fixtures.E 3);
     Accept (Fixtures.E 4); Accept (Fixtures.E 5); Accept (Fixtures.E 6);
     Select PickMessage; Accept (Fixtures.E 7); Select PickMessage;
     Select PickMessage; Select PickMessage; Select PickMessage;
     Select PickMessage; Select PickMessage] in
  let sched1 := [Accept (Fixtures.E 1); Select PickMessage] in
  (exists s s' err,
     Delivery_Process Fixtures.rt0 sched Fixtures.delivery3
       = Some (s, ProcRunning) /\
     length <$> dv_puts s = [3; 3] /\
     Delivery_Process Fixtures.rt0 (sched ++ [Select PickDone])
       Fixtures.delivery3 = Some (s', ProcReturns err) /\
     length <$> dv_puts s' = [3; 3; 1]) /\
  (exists s1 s2 s3,
     Delivery_Process Fixtures.rt0 sched1 Fixtures.delivery3
       = Some (s1, ProcRunning) /\
     dv_puts s1 = [] /\
     Delivery_Process Fixtures.rt0 (sched1 ++ [Select PickTimer])
       Fixtures.delivery3 = Some (s2, ProcRunning) /\
     dv_puts s2 = [[record_of "{}"]] /\
     Delivery_Process Fixtures.rt0
       ((sched1 ++ [Select PickTimer]) ++ [Select PickTimer])
       Fixtures.delivery3 = Some (s3, ProcRunning) /\
     dv_puts s3 = [[record_of "{}"]]) /\
  (let sched2 :=
     [Accept (Fixtures.E 1); Accept (Fixtures.E 2); Accept (Fixtures.E 3);
      Select PickMessage; Select PickMessage] in
   exists s4 s5,
     Delivery_Process Fixtures.rt0 sched2 Fixtures.delivery3
       = Some (s4, ProcRunning) /\
     dv_puts s4 = [] /\
     Delivery_Process Fixtures.rt0 (sched2 ++ [Select PickMessage])
       Fixtures.delivery3 = Some (s5, ProcRunning) /\
     dv_puts s5 = [[record_of "{}"; record_of "{}"; record_of "{}"]] /\
     dv_loop s5
     = LoopRunning [record_of "{}"; record_of "{}"; record_of "{}"] 0).
Proof.
  intros sched sched1.
  destruct (C2_flush_on_capacity_or_timer Fixtures.rt0 Fixtures.cfg3
              (dv Fixtures.delivery3) eq_refl) as (Hseven & _ & Hturn).
  split_and!.
  - assert (exists s,
      Delivery_Process Fixtures.rt0 sched Fixtures.delivery3
        = Some (s, ProcRunning))
      as (s & Hrun) by (eexists; vm_compute; reflexivity).
    assert (Htf : timer_free sched)
      by (repeat (constructor; [discriminate|]); constructor).
    destruct (Hseven eq_refl sched s _ _ _ _ _ _ _ eq_refl eq_refl Htf Hrun)
      as (d1 & d2 & d3 & d4 & d5 & d6 & d7 & s' & err & _ & Hputs & Hdone
          & Hputs').
    exists s, s', err. by rewrite Hputs, Hputs'.
  - assert (exists s1,
      Delivery_Process Fixtures.rt0 sched1 Fixtures.delivery3
        = Some (s1, ProcRunning) /\
      dv_loop s1 = LoopRunning [record_of "{}"; None; None] 1 /\
      dv_puts s1 = [])
      as (s1 & Hrun1 & Hloop1 & Hputs1)
      by (eexists; split_and!; vm_compute; reflexivity).
    destruct (Hturn sched1 s1 _ 1 Hrun1 Hloop1)
      as ((s2 & Hrun2 & Hputs2 & Hloop2) & _ & _).
    destruct (Hturn (sched1 ++ [Select PickTimer]) s2 _ 0 Hrun2 Hloop2)
      as ((s3 & Hrun3 & Hputs3 & _) & _ & _).
    exists s1, s2, s3. rewrite Hputs1 in Hputs2. simpl in Hputs2, Hputs3.
    rewrite Hputs2, app_nil_r in Hputs3. done.
  - intros sched2.
    assert (exists s4,
      Delivery_Process Fixtures.rt0 sched2 Fixtures.delivery3
        = Some (s4, ProcRunning) /\
      dv_loop s4 = LoopRunning [record_of "{}"; record_of "{}"; None] 2 /\
      messages (dv s4) = Some (mkChan 6 [Fixtures.E 3]) /\
      dv_puts s4 = [])
      as (s4 & Hrun4 & Hloop4 & Hch4 & Hputs4)
      by (eexists; split_and!; vm_compute; reflexivity).
    destruct (Hturn sched2 s4 _ 2 Hrun4 Hloop4) as (_ & Hmsg & _).
    destruct (Hmsg 6 (Fixtures.E 3) [] "{}" Hch4 eq_refl)
      as (s5 & Hrun5 & Hputs5 & Hloop5).
    exists s4, s5. rewrite Hputs4 in Hputs5. done.
Defined.

(** C6, at the sink of batch size 3 of the fixtures: two messages are
    accepted and received, then the context is cancelled; the one batch
    put holds the records of the two. *)
Lemma C6_cancel_flushes_buffered_once_witness :
  let sched := [Accept (Fixtures.E 1); Select PickMessage;
                Accept (Fixtures.E 2); Select PickMessage] in
  exists s s' err,
    Delivery_Process Fixtures.rt0 sched Fixtures.delivery3
      = Some (s, ProcRunning) /\
    dv_puts s = [] /\
    Delivery_Process Fixtures.rt0 (sched ++ [Select PickDone]) Fixtures.delivery3
      = Some (s', ProcReturns err) /\
    dv_puts s' = [[record_of "{}"; record_of "{}"]].
Proof.
  intros sched.
  assert (exists s records,
    Delivery_Process Fixtures.rt0 sched Fixtures.delivery3 = Some (s, ProcRunning)
    /\ dv_loop s = LoopRunning records 2 /\ dv_puts s = [])
    as (s & records & Hrun & Hloop & Hputs)
    by (eexists _, _; split_and!; vm_compute; reflexivity).
  destruct (C6_cancel_flushes_buffered_once Fixtures.rt0
              (mkDeliveryConfig "http://localhost:4573" "us-west-2"
                 "test-stream" 3 0)
              (dv Fixtures.delivery3) sched s records 2 eq_refl Hrun Hloop
              ltac:(lia))
    as (flushed & pending & datas & s' & err & Hrecv & Hfl & Hpen & Hmar
        & Hdone & _ & Hputs').
  exists s, s', err. split; [exact Hrun|]. split; [exact Hputs|].
  split; [exact Hdone|].
  rewrite Hputs in Hfl, Hputs'. simpl in Hfl, Hputs'.
  destruct flushed; [|discriminate Hfl]. simpl in Hrecv. subst pending.
  apply Forall2_cons_inv_l in Hmar as (d1 & datas1 & [= <-] & Hmar & ->).
  apply Forall2_cons_inv_l in Hmar as (d2 & datas2 & [= <-] & Hmar & ->).
  apply Forall2_nil_inv_l in Hmar as ->.
  exact Hputs'.
Defined.

(** ** The forwarding sink *)

(** C3, as stated, fails: on a sink fresh from [NewForwarder], whose run
    loop has not started, two calls of [Send] in a row both return nil
    and both count as skipped; no event is held by the channel, whose
    capacity is 0, and none reaches the run loop. *)
Lemma C3_two_sends_both_skipped :
  exists f s1 s2,
    NewForwarder "http://localhost" = Some f /\
    ch_cap (f_messages f) = 0 /\
    Forwarder_Send Fixtures.ctx0 (Fixtures.E 1)
      (new_forwarder_sink f) = [(s1, Returns None)] /\
    Forwarder_Send Fixtures.ctx0 (Fixtures.E 2) s1
      = [(s2, Returns None)] /\
    fw_skipped s2 = 2%Z /\
    fw_received s2 = [] /\
    ch_buf (f_messages (fw s2)) = [].
Proof. eexists _, _, _. split_and!; reflexivity. Qed.

(** One [Send] on a sink with the unbuffered channel. *)
Lemma Forwarder_Send_unbuffered (ctx : Ctx) (m : Msg) (s : ForwarderSink) :
  f_messages (fw s) = make_chan 0 ->
  Forwarder_Send ctx m s
  = [(if receiver_parked s
      then mkForwarderSink (fw s) (FwdBusy m) (fw_done s)
             (fw_received s ++ [m]) (fw_posts s)
             (fw_success s) (fw_skipped s) (fw_failure s)
      else mkForwarderSink (fw s) (fw_loop s) (fw_done s) (fw_received s)
             (fw_posts s) (fw_success s) (fw_skipped s + 1) (fw_failure s),
      Returns None)].
Proof.
  intros Hch. unfold Forwarder_Send, chan_has_room. rewrite Hch. simpl.
  by destruct (receiver_parked s).
Qed.

(** C3, amended.  [NewForwarder] makes an unbuffered channel.  [Send] has
    one outcome for every context, message and sink: it returns nil, and
    never parks.  On a sink with the unbuffered channel, two calls in a
    row, with no step of the run loop in between, leave the channel
    empty; when the run loop was parked at its receive, the first
    message is handed to it and the second is counted as skipped; when it
    was not (not started, cancelled, or busy with an outbound call), both
    are counted as skipped and the run loop receives neither. *)
Theorem C3_send_hands_over_or_skips :
  (forall url f, NewForwarder url = Some f ->
     f_messages f = make_chan 0 /\ endpoint f = url) /\
  (forall ctx m s, exists s', Forwarder_Send ctx m s = [(s', Returns None)]) /\
  (forall s ctx1 ctx2 m1 m2,
     f_messages (fw s) = make_chan 0 ->
     exists s1 s2,
       Forwarder_Send ctx1 m1 s = [(s1, Returns None)] /\
       Forwarder_Send ctx2 m2 s1 = [(s2, Returns None)] /\
       fw s2 = fw s /\
       if receiver_parked s
       then fw_loop s1 = FwdBusy m1 /\
            fw_loop s2 = FwdBusy m1 /\
            fw_received s2 = fw_received s ++ [m1] /\
            fw_skipped s2 = (fw_skipped s + 1)%Z
       else fw_loop s2 = fw_loop s /\
            fw_received s2 = fw_received s /\
            fw_skipped s2 = (fw_skipped s + 2)%Z).
Proof.
  split_and!.
  - unfold NewForwarder. intros url f H.
    destruct (String.prefix "http" url); [|discriminate H]. by injection H as <-.
  - intros ctx m s. unfold Forwarder_Send. eauto.
  - intros s ctx1 ctx2 m1 m2 Hch.
    rewrite (Forwarder_Send_unbuffered ctx1 m1 s Hch).
    destruct (receiver_parked s) eqn:Hparked.
    + eexists _, _. split; [reflexivity|].
      rewrite (Forwarder_Send_unbuffered ctx2 m2) by done.
      split; [reflexivity|]. done.
    + eexists _, _. split; [reflexivity|].
      rewrite (Forwarder_Send_unbuffered ctx2 m2) by done.
      replace (receiver_parked _) with (receiver_parked s)
        by (by destruct s).
      rewrite Hparked. split; [reflexivity|].
      simpl. split_and!; try done. lia.
Qed.

(** C3 amended, at the forwarder of the fixtures once [Process] is at its
    [select]: the first of two messages reaches the run loop, the second
    is skipped. *)
Lemma C3_send_hands_over_or_skips_witness :
  exists s s1 s2,
    NewForwarder "http://localhost" = Some (fw Fixtures.forwarder0) /\
    Forwarder_Process Fixtures.rt0 [] Fixtures.forwarder0
      = Some (s, ProcRunning) /\
    receiver_parked s = true /\
    Forwarder_Send Fixtures.ctx0 (Fixtures.E 1) s
      = [(s1, Returns None)] /\
    Forwarder_Send Fixtures.ctx0 (Fixtures.E 2) s1
      = [(s2, Returns None)] /\
    fw_received s2 = [Fixtures.E 1] /\
    fw_skipped s2 = 1%Z.
Proof.
  destruct C3_send_hands_over_or_skips as (Hnew & _ & Htwo).
  destruct (Hnew "http://localhost" (fw Fixtures.forwarder0) eq_refl)
    as [Hch _].
  eexists.
  destruct (Htwo (mkForwarderSink (fw Fixtures.forwarder0) FwdSelect None
                    [] 0 0 0 0)
              Fixtures.ctx0 Fixtures.ctx0 (Fixtures.E 1) (Fixtures.E 2) Hch)
    as (s1 & s2 & H1 & H2 & _ & Hres).
  exists s1, s2. simpl in Hres. destruct Hres as (_ & _ & Hrecv & Hskip).
  split; [reflexivity|]. split; [reflexivity|]. split; [reflexivity|].
  split; [exact H1|]. split; [exact H2|]. split; [exact Hrecv|exact Hskip].
Defined.

(** ** The supervisor *)

(** The delays of the default backoff stay between 100 ms and 10 s and
    do not decrease. *)
Lemma Duration_DefaultBacko_bounds (i : nat) :
  (millisecond * 100 <= Duration DefaultBacko i <= second * 10)%Z /\
  (Duration DefaultBacko i <= Duration DefaultBacko (S i))%Z.
Proof.
  unfold Duration, DefaultBacko, millisecond, second. simpl backo_base.
  simpl backo_factor. simpl backo_cap.
  assert (1 <= 2 ^ Z.of_nat i)%Z by (apply Z.pow_le_mono_r with (b := 0%Z); lia).
  assert (2 ^ Z.of_nat i <= 2 ^ Z.of_nat (S i))%Z
    by (apply Z.pow_le_mono_r; lia).
  lia.
Qed.

Section RetryLoop.
Context {D : Type} {impl : Destination D}.
Variables (b : Backo) (scheds : nat -> @Schedule D impl).
Variables (sts : nat -> D) (errs : nat -> error).

(** When the attempts [i], ..., [i + n - 1] fail, attempt [j] taking the
    destination from [sts j] to [sts (j + 1)] and returning [errs j], the
    retry loop runs all its turns, each an attempt and a sleep, and ends
    the process with the error of the last attempt. *)
Lemma Run_loop_all_fail (n : nat) :
  forall i e0,
    (forall j, i <= j < i + n ->
       Process (scheds j) (sts j)
       = Some (sts (S j), ProcReturns (Some (errs j)))) ->
    let e := match n with 0 => e0 | S n' => errs (i + n') end in
    RunBacko.Run_loop b scheds n i (Some e0) (sts i)
    = Some (sts (i + n), failed_turns b i n ++ [EvFatal e], TaskExitsProcess e).
Proof.
  induction n as [|n IH]; intros i e0 Hfail; simpl.
  - by rewrite Nat.add_0_r.
  - rewrite (Hfail i) by lia.
    rewrite (IH (S i) (errs i)) by (intros j Hj; apply Hfail; lia).
    replace (S i + n) with (i + S n) by lia. simpl.
    destruct n as [|n']; simpl.
    + by rewrite Nat.add_0_r.
    + by replace (S (i + n')) with (i + S n') by lia.
Qed.

Lemma Run_loop_all_fail_start (n i : nat) :
  (forall j, i <= j < i + S n ->
     Process (scheds j) (sts j)
     = Some (sts (S j), ProcReturns (Some (errs j)))) ->
  RunBacko.Run_loop b scheds (S n) i None (sts i)
  = Some (sts (i + S n), failed_turns b i (S n) ++ [EvFatal (errs (i + n))],
          TaskExitsProcess (errs (i + n))).
Proof.
  intros Hfail.
  pose proof (Run_loop_all_fail (S n) i (errs i) Hfail) as Hrun.
  simpl in Hrun |- *. rewrite (Hfail i) in Hrun |- * by lia. exact Hrun.
Qed.

End RetryLoop.

(** C4, as stated, fails on both revisions of [Run].  Take a firehose
    sink whose stream cannot be reached, so that [Process] fails each
    time.  The revision with the backoff makes its ten attempts, sleeping
    100 ms, 200 ms, ... up to 10 s after each, and then ends the whole
    process through [Logger.Fatal]: it reports nothing to its caller.  The
    revision with the [done] channel reports the error to its caller, but
    after one attempt: it does not retry. *)
Lemma C4_exhaustion_exits_or_no_retry :
  let err := ErrStream (ErrLib "connection refused") in
  RunBacko.Run_task (NewSegment Fixtures.pid [Fixtures.downDest])
    Fixtures.downDest (fun _ => [])
  = Some (Fixtures.downDest,
          flat_map (fun j => [EvProcess j; EvSleep (Duration DefaultBacko j)])
            (seq 0 10) ++ [EvFatal err],
          TaskExitsProcess err) /\
  Duration DefaultBacko <$> seq 0 10
  = [100000000; 200000000; 400000000; 800000000; 1600000000; 3200000000;
     6400000000; 10000000000; 10000000000; 10000000000]%Z /\
  RunDone.Run_task Fixtures.downDest (fun _ => [])
  = Some (Fixtures.downDest, [EvProcess 0; EvDone (Some err)], TaskReturns).
Proof. split_and!; vm_compute; reflexivity. Qed.

(** C4, amended.  Take a destination whose [Process] returns an error at
    each of the first ten attempts: attempt [i] takes the destination
    from the state [sts i] to [sts (i + 1)] and returns [errs i].  The
    goroutine that the revision of [Run] with the backoff starts for it
    calls [Process] ten times, each attempt on the state the one before
    left, sleeps after each attempt for the delay of the default backoff
    (between 100 ms and 10 s, never decreasing), and then logs the error
    of the tenth attempt with [Logger.Fatal], which ends the process;
    nothing goes back to the caller of [Run].  The goroutine of the
    revision with the [done] channel calls [Process] once and sends the
    error of that one attempt on the channel, without a retry. *)
Theorem C4_retry_then_fatal_or_report_once {D : Type} (impl : Destination D)
    (pid : string -> string) (dests : list Dest)
    (scheds : nat -> @Schedule D impl) (sts : nat -> D) (errs : nat -> error) :
  (forall i, i < 10 ->
     Process (scheds i) (sts i)
     = Some (sts (S i), ProcReturns (Some (errs i)))) ->
  RunBacko.Run_task (NewSegment pid dests) (mkDest D impl (sts 0)) scheds
  = Some (mkDest D impl (sts 10),
          flat_map (fun j => [EvProcess j; EvSleep (Duration DefaultBacko j)])
            (seq 0 10) ++ [EvFatal (errs 9)],
          TaskExitsProcess (errs 9)) /\
  (forall i,
     (millisecond * 100 <= Duration DefaultBacko i <= second * 10)%Z /\
     (Duration DefaultBacko i <= Duration DefaultBacko (S i))%Z) /\
  RunDone.Run_task (mkDest D impl (sts 0)) scheds
  = Some (mkDest D impl (sts 1), [EvProcess 0; EvDone (Some (errs 0))],
          TaskReturns).
Proof.
  intros Hfail. split_and!.
  - unfold RunBacko.Run_task.
    change (RunBacko.Run_loop (backo (NewSegment pid dests)) scheds
              (backoRetry (NewSegment pid dests)) 0 None
              (dest_state (mkDest D impl (sts 0))))
      with (RunBacko.Run_loop DefaultBacko scheds 10 0 None (sts 0)).
    rewrite (Run_loop_all_fail_start DefaultBacko scheds sts errs 9 0)
      by (intros j Hj; apply Hfail; lia).
    reflexivity.
  - apply Duration_DefaultBacko_bounds.
  - unfold RunDone.Run_task.
    change (@Process _ (dest_impl (mkDest D impl (sts 0))) (scheds 0)
              (dest_state (mkDest D impl (sts 0))))
      with (Process (scheds 0) (sts 0)).
    by rewrite (Hfail 0) by lia.
Qed.

(** C4 amended, at the firehose sink whose stream cannot be reached: each
    attempt fails to connect and leaves the sink as it was. *)
Lemma C4_retry_then_fatal_or_report_once_witness :
  let err := ErrStream (ErrLib "connection refused") in
  RunBacko.Run_task (NewSegment Fixtures.pid [Fixtures.downDest])
    Fixtures.downDest (fun _ => [])
  = Some (Fixtures.downDest,
          flat_map (fun j => [EvProcess j; EvSleep (Duration DefaultBacko j)])
            (seq 0 10) ++ [EvFatal err],
          TaskExitsProcess err) /\
  RunDone.Run_task Fixtures.downDest (fun _ => [])
  = Some (Fixtures.downDest, [EvProcess 0; EvDone (Some err)], TaskReturns).
Proof.
  intros err.
  destruct (C4_retry_then_fatal_or_report_once
              (Delivery_Destination Fixtures.rt_down)
              Fixtures.pid [Fixtures.downDest] (fun _ => [])
              (fun _ => Fixtures.delivery3) (fun _ => err))
    as (Hrun & _ & Hdone).
  - intros i _. reflexivity.
  - split; [exact Hrun|exact Hdone].
Defined.

(** * Further properties of the code *)

(** ** The firehose sink: construction and connection *)


Section DeliveryLedger.
Variable rt : Runtime.

(** When [Connect] fails, [Process] returns its error under every
    schedule and leaves the sink as it was: no channel is created, so a
    [Send] that follows still gets the not-ready error. *)
Theorem Process_connect_failure (s : DeliverySink) (err : error)
    (sched : list DeliveryStep) :
  Connect rt (dv s) = Some err ->
  messages (dv s) = None ->
  Delivery_Process rt sched s = Some (s, ProcReturns (Some err)) /\
  forall ctx m,
    Delivery_Send rt ctx m s
    = [(s, Returns (Some (ErrNotReady (streamName (dv s)) (fh_Endpoint (dv s)))))].
Proof.
  intros Hconn Hnil. unfold Delivery_Process, Delivery_Send.
  by rewrite Hconn, Hnil.
Qed.

Lemma Process_send_ledger (sz : Z) (records : list (option FhRecord))
    (i : nat) (s : DeliverySink) :
  ledger_ok sz s ->
  i <= length records ->
  i <= Z.to_nat sz ->
  ledger_ok sz (Process_send rt records i s).1 /\
  dv_loop (Process_send rt records i s).1 = dv_loop s.
Proof.
  intros (Hsz & Hch & Hputs & Hcount) Hi Hle. unfold Process_send.
  destruct (decide (i = 0)) as [|Hne]; [done|].
  assert (Hlen : length (take i records) = i) by (rewrite length_take; lia).
  destruct (fh_PutRecordBatch _ _ _ _) as [failed|e]; simpl;
    (split; [|done]); unfold ledger_ok; simpl;
    (split_and!; [done|done| |]);
    try (apply Forall_app; split; [done|]; apply Forall_singleton; lia);
    rewrite concat_app, length_app; simpl; rewrite app_nil_r, Hlen; lia.
Qed.

Lemma loop_end_ledger (sz : Z) (records : list (option FhRecord))
    (i : nat) (flush : bool) (s : DeliverySink) :
  (1 <= sz)%Z ->
  ledger_ok sz s ->
  length records = Z.to_nat sz ->
  i <= length records ->
  (i = length records -> flush = false ->
   bool_decide (Z.of_nat i = size (dv s)) = true) ->
  ledger_ok sz (loop_end rt records i flush s) /\
  loop_ok sz (loop_end rt records i flush s).
Proof.
  intros Hsz Hled Hlen Hi Hfull. unfold loop_end.
  destruct (bool_decide (Z.of_nat i = size (dv s)) || flush) eqn:Hfl.
  - destruct (Process_send_ledger sz records i s Hled Hi ltac:(lia)) as [Hl _].
    split; [by destruct Hl as (? & ? & ? & ?)|].
    unfold loop_ok. simpl. lia.
  - split; [by destruct Hled as (? & ? & ? & ?)|].
    unfold loop_ok. simpl. split; [done|].
    apply orb_false_iff in Hfl as [Hb ->].
    destruct (decide (i = length records)) as [Heq|]; [|lia].
    rewrite (Hfull Heq eq_refl) in Hb. discriminate Hb.
Qed.

Lemma on_message_ledger (sz : Z) (m : Msg) (records : list (option FhRecord))
    (i : nat) (s : DeliverySink) :
  (1 <= sz)%Z ->
  ledger_ok sz s ->
  length records = Z.to_nat sz ->
  i < length records ->
  ledger_ok sz (on_message rt m records i s).1 /\
  loop_ok sz (on_message rt m records i s).1 /\
  (on_message rt m records i s).2 <> Some ProcPanics.
Proof.
  intros Hsz Hled Hlen Hi. unfold on_message.
  destruct (json_Marshal rt m) as [e|data].
  - simpl. split; [by destruct Hled as (? & ? & ? & ?)|]. done.
  - rewrite decide_True by done. simpl.
    destruct (loop_end_ledger sz
                (<[i:=Some (mkRecord (data +:+ newline))]> records) (S i)
                false s Hsz Hled) as [Hl Hloop].
    + by rewrite length_insert.
    + rewrite length_insert. lia.
    + rewrite length_insert. intros Heq _. apply bool_decide_eq_true.
      destruct Hled as (-> & _). lia.
    + done.
Qed.

(** Every step of the schedule keeps the books and the locals of the
    loop in order, and none panics. *)
Lemma Process_step_ledger (sz : Z) (a : DeliveryStep) (s s' : DeliverySink)
    (r : option ProcessResult) :
  (1 <= sz)%Z ->
  ledger_ok sz s ->
  loop_ok sz s ->
  Process_step rt a s = Some (s', r) ->
  ledger_ok sz s' /\ loop_ok sz s' /\ r <> Some ProcPanics.
Proof.
  intros Hsz Hled Hloop Hstep. unfold Process_step in Hstep.
  unfold loop_ok in Hloop.
  destruct (dv_loop s) as [|records i|] eqn:Hl; [done| |done].
  destruct Hloop as [Hlen Hi].
  pose proof Hled as (Hsize & (buf & Hch & Hbuf) & Hputs & Hcount).
  destruct a as [m|[| |]].
  - unfold place in Hstep. rewrite Hch, Hl in Hstep.
    unfold chan_has_room in Hstep. simpl in Hstep.
    destruct (bool_decide (length buf < Z.to_nat (sz * 2))) eqn:Hroom.
    + apply bool_decide_eq_true in Hroom. injection Hstep as <- <-.
      split_and!; [|by unfold loop_ok; simpl; rewrite Hl|done].
      unfold ledger_ok. simpl. split_and!; try done.
      eexists. split; [reflexivity|]. rewrite length_app. simpl. lia.
    + rewrite decide_False in Hstep by lia. discriminate Hstep.
  - rewrite Hch in Hstep. destruct buf as [|m buf]; [discriminate Hstep|].
    injection Hstep as Hstep.
    assert (Hled' : ledger_ok sz
              (set_messages (Some (mkChan (Z.to_nat (sz * 2)) buf)) s)).
    { unfold ledger_ok. simpl. split_and!; try done.
      eexists. split; [reflexivity|]. simpl in Hbuf. lia. }
    pose proof (on_message_ledger sz m records i _ Hsz Hled' Hlen Hi)
      as (H1 & H2 & H3).
    rewrite Hstep in H1, H2, H3. done.
  - destruct (Process_send_ledger sz records i s Hled ltac:(lia) ltac:(lia))
      as [Hl' _].
    destruct (Process_send rt records i s) as [s1 err]. injection Hstep as <- <-.
    simpl in Hl'. split_and!; [by destruct Hl' as (? & ? & ? & ?)|done|done].
  - injection Hstep as <- <-.
    destruct (loop_end_ledger sz records i (bool_decide (0 < i)) s Hsz Hled
                Hlen ltac:(lia) ltac:(lia)) as [H1 H2].
    done.
Qed.

Lemma run_schedule_ledger (sz : Z) (sched : list DeliveryStep) :
  forall s s' r,
    (1 <= sz)%Z ->
    ledger_ok sz s ->
    loop_ok sz s ->
    run_schedule (Process_step rt) sched s = Some (s', r) ->
    ledger_ok sz s' /\ loop_ok sz s' /\ r <> ProcPanics.
Proof.
  induction sched as [|a sched IH]; intros s s' r Hsz Hled Hloop Hrun;
    simpl in Hrun.
  - by injection Hrun as <- <-.
  - destruct (Process_step rt a s) as [[s1 [r1|]]|] eqn:Ha; [| |done].
    + injection Hrun as <- <-.
      destruct (Process_step_ledger sz a s s1 _ Hsz Hled Hloop Ha)
        as (H1 & H2 & H3).
      split_and!; [done|done|]. intros ->. by apply H3.
    + destruct (Process_step_ledger sz a s s1 _ Hsz Hled Hloop Ha)
        as (H1 & H2 & _).
      by apply (IH s1).
Qed.

(** What a call of [Process] on a sink fresh from [NewDelivery] leaves:
    either [Connect] failed and nothing changed, or the books are in
    order; in neither case does it panic. *)
Lemma Delivery_Process_ledger (config : DeliveryConfig) (d : Delivery)
    (sched : list DeliveryStep) (s : DeliverySink) (r : ProcessResult) :
  NewDelivery rt config = Some d ->
  Delivery_Process rt sched (new_sink d) = Some (s, r) ->
  r <> ProcPanics /\
  ((exists e, Connect rt d = Some e /\ s = new_sink d /\ r = ProcReturns (Some e))
   \/ (Connect rt d = None /\ ledger_ok (size d) s /\ loop_ok (size d) s)).
Proof.
  intros Hnew Hrun. apply NewDelivery_spec in Hnew as (_ & Hsz & _).
  unfold Delivery_Process in Hrun. simpl in Hrun.
  destruct (Connect rt d) as [e|].
  - injection Hrun as <- <-. split; [done|]. left. by exists e.
  - rewrite decide_False in Hrun by lia.
    apply (run_schedule_ledger (size d)) in Hrun as (H1 & H2 & H3);
      [by split; [|right]|lia| |].
    + unfold ledger_ok. simpl. split_and!; try done.
      eexists. split; [reflexivity|]. simpl. lia.
    + unfold loop_ok. simpl. rewrite length_replicate. lia.
Qed.

End DeliveryLedger.

Section DeliveryCounters.
Variables (rt : Runtime) (name : string).

Lemma total_app (l1 l2 : list Z) : total (l1 ++ l2) = (total l1 + total l2)%Z.
Proof. unfold total. induction l1 as [|x l1 IH]; simpl; lia. Qed.

Lemma counter_adds_app (p q : list (list (option FhRecord))) :
  forall k,
    counter_adds rt name k (p ++ q)
    = counter_adds rt name k p ++ counter_adds rt name (k + length p) q.
Proof.
  induction p as [|b p IH]; intros k; simpl.
  - by rewrite Nat.add_0_r.
  - rewrite IH. by replace (S k + length p) with (k + S (length p)) by lia.
Qed.

(** With replies within the contract no [Add] gets a negative argument. *)
Lemma counter_adds_in_contract (puts : list (list (option FhRecord))) :
  replies_in_contract rt name ->
  forall k, Forall (fun a => (0 <= a.1)%Z /\ (0 <= a.2)%Z)
              (counter_adds rt name k puts).
Proof.
  intros Hrep. induction puts as [|b puts IH]; intros k; simpl;
    constructor; [|by apply IH].
  destruct (fh_PutRecordBatch rt k name b) as [f|e] eqn:Hput; simpl; [|lia].
  pose proof (Hrep k b f Hput). lia.
Qed.

Lemma total_nonneg (l : list Z) :
  Forall (fun x => (0 <= x)%Z) l -> (0 <= total l)%Z.
Proof. unfold total. induction 1; simpl; lia. Qed.

Lemma Process_send_counters (records : list (option FhRecord)) (i : nat)
    (s : DeliverySink) :
  i <= length records ->
  counters_ok rt name s ->
  counters_ok rt name (Process_send rt records i s).1.
Proof.
  intros Hi (Hname & Hfail & Hsucc). unfold Process_send.
  destruct (decide (i = 0)) as [|Hne]; [done|].
  assert (Hlen : length (take i records) = i) by (rewrite length_take; lia).
  rewrite Hname.
  destruct (fh_PutRecordBatch rt (length (dv_puts s)) name (take i records))
    as [f|e] eqn:Hput; unfold counters_ok; simpl;
    rewrite counter_adds_app, !fmap_app, !total_app; simpl;
    rewrite Hput, Hlen, <- Hfail, <- Hsucc; unfold total; simpl;
    split_and!; try done; lia.
Qed.

Lemma loop_end_counters (records : list (option FhRecord)) (i : nat)
    (flush : bool) (s : DeliverySink) :
  i <= length records ->
  counters_ok rt name s ->
  counters_ok rt name (loop_end rt records i flush s).
Proof.
  intros Hi Hok. unfold loop_end.
  destruct (bool_decide (Z.of_nat i = size (dv s)) || flush); [|done].
  by apply (Process_send_counters records i s).
Qed.

Lemma on_message_counters (m : Msg) (records : list (option FhRecord))
    (i : nat) (s : DeliverySink) :
  counters_ok rt name s ->
  counters_ok rt name (on_message rt m records i s).1.
Proof.
  intros Hok. unfold on_message.
  destruct (json_Marshal rt m) as [e|data]; [done|].
  destruct (decide (i < length records)) as [Hi|]; [|done].
  simpl. apply loop_end_counters; [|done]. rewrite length_insert. lia.
Qed.

(** Every step of the schedule keeps the counters in step with the
    puts. *)
Lemma Process_step_counters (sz : Z) (a : DeliveryStep) (s s' : DeliverySink)
    (r : option ProcessResult) :
  loop_ok sz s ->
  counters_ok rt name s ->
  Process_step rt a s = Some (s', r) ->
  counters_ok rt name s'.
Proof.
  intros Hloop Hok Hstep. unfold Process_step in Hstep.
  unfold loop_ok in Hloop.
  destruct (dv_loop s) as [|records i|] eqn:Hl; [done| |done].
  destruct Hloop as [Hlen Hi].
  destruct a as [m|[| |]].
  - unfold place in Hstep. rewrite Hl in Hstep.
    destruct (messages (dv s)) as [c|]; [|done].
    destruct (chan_has_room c); [by injection Hstep as <- _|].
    destruct (decide (ch_cap c = 0)); [|done]. injection Hstep as Hstep.
    pose proof (on_message_counters m records i s Hok) as H.
    by rewrite Hstep in H.
  - destruct (messages (dv s)) as [[cap [|m buf]]|]; try done.
    injection Hstep as Hstep.
    pose proof (on_message_counters m records i
                  (set_messages (Some (mkChan cap buf)) s) Hok) as H.
    by rewrite Hstep in H.
  - pose proof (Process_send_counters records i s ltac:(lia) Hok) as H.
    destruct (Process_send rt records i s) as [s1 err]. by injection Hstep as <- _.
  - injection Hstep as <- _. apply loop_end_counters; [lia|done].
Qed.

Lemma run_schedule_counters (sz : Z) (sched : list DeliveryStep) :
  forall s s' r,
    (1 <= sz)%Z ->
    ledger_ok sz s ->
    loop_ok sz s ->
    counters_ok rt name s ->
    run_schedule (Process_step rt) sched s = Some (s', r) ->
    counters_ok rt name s'.
Proof.
  induction sched as [|a sched IH]; intros s s' r Hsz Hled Hloop Hok Hrun;
    simpl in Hrun.
  - by injection Hrun as <- _.
  - destruct (Process_step rt a s) as [[s1 [r1|]]|] eqn:Ha; [| |done].
    + injection Hrun as <- _.
      by apply (Process_step_counters sz a s s1 (Some r1)).
    + destruct (Process_step_ledger rt sz a s s1 _ Hsz Hled Hloop Ha)
        as (H1 & H2 & _).
      apply (IH s1 s' r); try done.
      by apply (Process_step_counters sz a s s1 None).
Qed.

End DeliveryCounters.

(** After a call of [Process] on a sink fresh from [NewDelivery] the
    counters of its stream hold what the [Add] calls of its puts added. *)
Lemma Delivery_Process_counters (rt : Runtime) (config : DeliveryConfig)
    (d : Delivery) (sched : list DeliveryStep) (s : DeliverySink)
    (r : ProcessResult) :
  NewDelivery rt config = Some d ->
  Delivery_Process rt sched (new_sink d) = Some (s, r) ->
  counters_ok rt (streamName d) s.
Proof.
  intros Hnew Hrun. apply NewDelivery_spec in Hnew as (_ & Hsz & _).
  unfold Delivery_Process in Hrun. simpl in Hrun.
  destruct (Connect rt d) as [e|]; [by injection Hrun as <- _|].
  rewrite decide_False in Hrun by lia.
  apply (run_schedule_counters rt (streamName d) (size d)) in Hrun;
    [done|lia| | |done].
  - unfold ledger_ok. simpl. split_and!; try done.
    eexists. split; [reflexivity|]. simpl. lia.
  - unfold loop_ok. simpl. rewrite length_replicate. lia.
Qed.

(** ** The firehose sink: what every run of [Process] keeps *)

(** [Process] on a sink made by [NewDelivery] never panics when the
    replies of the firehose service are within its contract.  Under every
    schedule [records[i]] is written inside the array, and the counters
    of the stream have been added to once for each [PutRecordBatch] call,
    with the amounts of [counter_adds], none of which is negative: the
    metrics library, which panics on a negative amount, does not. *)
Theorem Delivery_Process_never_panics (rt : Runtime) (config : DeliveryConfig)
    (d : Delivery) (sched : list DeliveryStep) (s : DeliverySink)
    (r : ProcessResult) :
  replies_in_contract rt (streamName d) ->
  NewDelivery rt config = Some d ->
  Delivery_Process rt sched (new_sink d) = Some (s, r) ->
  r <> ProcPanics /\
  dv_failure s
  = total (fst <$> counter_adds rt (streamName d) 0 (dv_puts s)) /\
  dv_success s
  = total (snd <$> counter_adds rt (streamName d) 0 (dv_puts s)) /\
  Forall (fun a => (0 <= a.1)%Z /\ (0 <= a.2)%Z)
    (counter_adds rt (streamName d) 0 (dv_puts s)).
Proof.
  intros Hrep Hnew Hrun.
  destruct (Delivery_Process_counters rt config d sched s r Hnew Hrun)
    as (_ & Hfail & Hsucc).
  split_and!; try done.
  - by destruct (Delivery_Process_ledger rt config d sched s r Hnew Hrun).
  - by apply counter_adds_in_contract.
Qed.

Lemma Delivery_Process_never_panics_witness :
  exists s r,
    Delivery_Process Fixtures.rt0 Fixtures.sched_timer Fixtures.delivery3
      = Some (s, r) /\ r <> ProcPanics /\
    counter_adds Fixtures.rt0 "test-stream" 0 (dv_puts s)
    = [(0, 1); (0, 2)]%Z.
Proof.
  assert (exists s r,
    Delivery_Process Fixtures.rt0 Fixtures.sched_timer Fixtures.delivery3
      = Some (s, r) /\
    counter_adds Fixtures.rt0 "test-stream" 0 (dv_puts s)
    = [(0, 1); (0, 2)]%Z) as (s & r & Hrun & Hadds)
    by (eexists _, _; split; vm_compute; reflexivity).
  exists s, r. split; [exact Hrun|]. split; [|exact Hadds].
  apply (Delivery_Process_never_panics Fixtures.rt0 Fixtures.cfg3
           (dv Fixtures.delivery3) Fixtures.sched_timer s r);
    [|reflexivity|exact Hrun].
  intros k batch f Hput. injection Hput as <-. lia.
Defined.

(** Every [PutRecordBatch] call that [Process] makes, whether the buffer
    filled, the timer fired or the context was cancelled, carries at
    least one record and at most the batch size, hence at most 500. *)
Theorem Delivery_batches_bounded (rt : Runtime) (config : DeliveryConfig)
    (d : Delivery) (sched : list DeliveryStep) (s : DeliverySink)
    (r : ProcessResult) :
  NewDelivery rt config = Some d ->
  Delivery_Process rt sched (new_sink d) = Some (s, r) ->
  Forall (fun b => 1 <= length b <= 500 /\ (Z.of_nat (length b) <= size d)%Z)
    (dv_puts s).
Proof.
  intros Hnew Hrun. pose proof (NewDelivery_spec rt _ _ Hnew) as (_ & Hsz & _).
  destruct (Delivery_Process_ledger rt config d sched s r Hnew Hrun)
    as [_ [(e & _ & -> & _)|(_ & (_ & _ & Hputs & _) & _)]]; [by constructor|].
  eapply Forall_impl; [exact Hputs|]. simpl. intros b Hb. lia.
Qed.

Lemma Delivery_batches_bounded_witness :
  exists s r,
    Delivery_Process Fixtures.rt0 Fixtures.sched_timer Fixtures.delivery3
      = Some (s, r) /\
    length <$> dv_puts s = [1; 2] /\
    Forall (fun b => 1 <= length b <= 500 /\ (Z.of_nat (length b) <= 3)%Z)
      (dv_puts s).
Proof.
  assert (exists s r,
    Delivery_Process Fixtures.rt0 Fixtures.sched_timer Fixtures.delivery3
      = Some (s, r) /\ length <$> dv_puts s = [1; 2]) as (s & r & Hrun & Hlen)
    by (eexists _, _; split; vm_compute; reflexivity).
  exists s, r. split; [exact Hrun|]. split; [exact Hlen|].
  exact (Delivery_batches_bounded Fixtures.rt0 Fixtures.cfg3
           (dv Fixtures.delivery3) Fixtures.sched_timer s r eq_refl Hrun).
Defined.

(** The counters of the stream account for every record put, once each.
    When the replies of the firehose service are within its contract,
    after any run of [Process] successes plus failures equal the number
    of records handed to [PutRecordBatch], whether the calls returned an
    error or a count of failed records, and neither counter is negative
    or exceeds that number. *)
Theorem Delivery_counters_account (rt : Runtime) (config : DeliveryConfig)
    (d : Delivery) (sched : list DeliveryStep) (s : DeliverySink)
    (r : ProcessResult) :
  replies_in_contract rt (streamName d) ->
  NewDelivery rt config = Some d ->
  Delivery_Process rt sched (new_sink d) = Some (s, r) ->
  (dv_success s + dv_failure s)%Z = Z.of_nat (length (concat (dv_puts s))) /\
  (0 <= dv_success s <= Z.of_nat (length (concat (dv_puts s))))%Z /\
  (0 <= dv_failure s <= Z.of_nat (length (concat (dv_puts s))))%Z.
Proof.
  intros Hrep Hnew Hrun.
  destruct (Delivery_Process_counters rt config d sched s r Hnew Hrun)
    as (_ & Hfail & Hsucc).
  pose proof (counter_adds_in_contract rt (streamName d) (dv_puts s) Hrep 0)
    as Hadds.
  assert (Hf : (0 <= dv_failure s)%Z).
  { rewrite Hfail. apply total_nonneg, Forall_fmap.
    eapply Forall_impl; [exact Hadds|]. by intros a [? ?]. }
  assert (Hs : (0 <= dv_success s)%Z).
  { rewrite Hsucc. apply total_nonneg, Forall_fmap.
    eapply Forall_impl; [exact Hadds|]. by intros a [? ?]. }
  assert (Hsum : (dv_success s + dv_failure s)%Z
                 = Z.of_nat (length (concat (dv_puts s)))).
  { by destruct (Delivery_Process_ledger rt config d sched s r Hnew Hrun)
      as [_ [(e & _ & -> & _)|(_ & (_ & _ & _ & Hcount) & _)]]. }
  lia.
Qed.

Lemma Delivery_counters_account_witness :
  exists s r,
    Delivery_Process Fixtures.rt0 Fixtures.sched_timer Fixtures.delivery3
      = Some (s, r) /\
    (dv_success s + dv_failure s = 3)%Z.
Proof.
  assert (exists s r,
    Delivery_Process Fixtures.rt0 Fixtures.sched_timer Fixtures.delivery3
      = Some (s, r) /\ length (concat (dv_puts s)) = 3)
    as (s & r & Hrun & Hlen)
    by (eexists _, _; split; vm_compute; reflexivity).
  exists s, r. split; [exact Hrun|].
  destruct (Delivery_counters_account Fixtures.rt0 Fixtures.cfg3
              (dv Fixtures.delivery3) Fixtures.sched_timer s r) as [Hsum _];
    [|reflexivity|exact Hrun|].
  - intros k batch f Hput. injection Hput as <-. lia.
  - by rewrite Hsum, Hlen.
Defined.

(** The channel of the sink exists after a call of [Process] exactly when
    [Connect] succeeded, and then for good: it has twice the batch size
    as capacity and never holds more, and it is still there once
    [Process] has returned, so that [Send] goes on accepting messages
    that no loop will take. *)
Theorem Delivery_channel_bounded (rt : Runtime) (config : DeliveryConfig)
    (d : Delivery) (sched : list DeliveryStep) (s : DeliverySink)
    (r : ProcessResult) :
  NewDelivery rt config = Some d ->
  Delivery_Process rt sched (new_sink d) = Some (s, r) ->
  match messages (dv s) with
  | None => exists e, Connect rt d = Some e /\ r = ProcReturns (Some e)
  | Some c =>
      Connect rt d = None /\
      ch_cap c = Z.to_nat (size d * 2) /\
      length (ch_buf c) <= ch_cap c
  end.
Proof.
  intros Hnew Hrun. pose proof (NewDelivery_spec rt _ _ Hnew) as (Hnil & _).
  destruct (Delivery_Process_ledger rt config d sched s r Hnew Hrun)
    as [_ [(e & He & -> & ->)|(Hc & (_ & (buf & -> & Hbuf) & _) & _)]].
  - simpl. rewrite Hnil. by exists e.
  - done.
Qed.

Lemma Delivery_channel_bounded_witness :
  exists s r c,
    Delivery_Process Fixtures.rt0 Fixtures.sched_timer Fixtures.delivery3
      = Some (s, r) /\
    r = ProcReturns None /\
    messages (dv s) = Some c /\
    ch_cap c = 6 /\ length (ch_buf c) <= ch_cap c.
Proof.
  assert (exists s c,
    Delivery_Process Fixtures.rt0 Fixtures.sched_timer Fixtures.delivery3
      = Some (s, ProcReturns None) /\ messages (dv s) = Some c)
    as (s & c & Hrun & Hc)
    by (eexists _, _; split; vm_compute; reflexivity).
  exists s, (ProcReturns None), c. split; [exact Hrun|]. split; [done|].
  split; [exact Hc|].
  pose proof (Delivery_channel_bounded Fixtures.rt0 Fixtures.cfg3
                (dv Fixtures.delivery3) Fixtures.sched_timer s _ eq_refl Hrun)
    as H.
  rewrite Hc in H. destruct H as (_ & Hcap & Hlen). by split.
Defined.

(** While [Process] is in its loop nothing accepted is lost, repeated or
    reordered: the messages the loop has taken are the first accepted
    ones, they all marshalled, and their records, in acceptance order,
    are exactly the records of the batches put followed by the records
    buffered; the messages not yet taken wait in the channel, in
    acceptance order. *)
Theorem Delivery_no_loss_no_reorder (rt : Runtime) (config : DeliveryConfig)
    (d : Delivery) (sched : list DeliveryStep) (s : DeliverySink) :
  NewDelivery rt config = Some d ->
  Delivery_Process rt sched (new_sink d) = Some (s, ProcRunning) ->
  exists records i datas,
    dv_loop s = LoopRunning records i /\
    Forall2 (fun m data => json_Marshal rt m = inr data)
      (take (picked sched) (accepted sched)) datas /\
    concat (dv_puts s) ++ take i records = record_of <$> datas /\
    (exists cap, messages (dv s)
                 = Some (mkChan cap (drop (picked sched) (accepted sched)))).
Proof.
  intros Hnew Hrun. apply NewDelivery_spec in Hnew as (_ & Hsz & _).
  pose proof (Delivery_Process_running rt sched (new_sink d) s
                ltac:(simpl; lia) Hrun)
    as (records & i & datas & puts & Hloop & _ & _ & _ & _ & Hmsg & Hmar
        & Hputs & Hcat & _).
  simpl in Hputs. rewrite <- Hputs in Hcat.
  exists records, i, datas. split_and!; try done. eauto.
Qed.

Lemma Delivery_no_loss_no_reorder_witness :
  let sched := [Accept (Fixtures.E 1); Accept (Fixtures.E 2);
                Accept (Fixtures.E 3); Accept (Fixtures.E 4);
                Select PickMessage; Select PickMessage; Select PickMessage;
                Accept (Fixtures.E 5)] in
  exists s cap,
    Delivery_Process Fixtures.rt0 sched Fixtures.delivery3
      = Some (s, ProcRunning) /\
    messages (dv s) = Some (mkChan cap [Fixtures.E 4; Fixtures.E 5]).
Proof.
  intros sched.
  assert (exists s,
    Delivery_Process Fixtures.rt0 sched Fixtures.delivery3
      = Some (s, ProcRunning)) as (s & Hrun)
    by (eexists; vm_compute; reflexivity).
  destruct (Delivery_no_loss_no_reorder Fixtures.rt0 Fixtures.cfg3
              (dv Fixtures.delivery3) sched s eq_refl Hrun)
    as (records & i & datas & _ & _ & _ & cap & Hch).
  by exists s, cap.
Defined.

(** A message that does not marshal ends [Process]: when the loop takes
    it, [Process] returns the marshal error at once, and the records
    buffered at that time are not put: no [PutRecordBatch] call is made
    for them. *)
Theorem Process_marshal_failure_drops_buffer (rt : Runtime)
    (config : DeliveryConfig) (d : Delivery) (sched : list DeliveryStep)
    (s : DeliverySink) (cap : nat) (m : Msg) (buf : list Msg) (e : error) :
  NewDelivery rt config = Some d ->
  Delivery_Process rt sched (new_sink d) = Some (s, ProcRunning) ->
  messages (dv s) = Some (mkChan cap (m :: buf)) ->
  json_Marshal rt m = inl e ->
  exists s',
    Delivery_Process rt (sched ++ [Select PickMessage]) (new_sink d)
      = Some (s', ProcReturns (Some (ErrMarshal e))) /\
    dv_puts s' = dv_puts s /\
    dv_loop s' = LoopIdle.
Proof.
  intros Hnew Hrun Hch Hm. apply NewDelivery_spec in Hnew as (_ & Hsz & _).
  pose proof (Delivery_Process_running rt sched (new_sink d) s
                ltac:(simpl; lia) Hrun) as (records & i & _ & _ & Hloop & _).
  unfold Delivery_Process in *.
  destruct (Connect rt (dv (new_sink d))); [discriminate Hrun|].
  destruct (decide (size (dv (new_sink d)) < 0)%Z); [discriminate Hrun|].
  rewrite (run_schedule_app _ _ _ _ _ (Process_step_not_running rt) Hrun).
  simpl. unfold Process_step. rewrite Hloop, Hch. unfold on_message.
  rewrite Hm. eexists. split; [reflexivity|]. done.
Qed.

Lemma Process_marshal_failure_drops_buffer_witness :
  let sched := [Accept (Fixtures.E 1); Select PickMessage;
                Accept (MsgOther JNull)] in
  exists s s',
    Delivery_Process Fixtures.rt_strict sched Fixtures.delivery3
      = Some (s, ProcRunning) /\
    dv_loop s = LoopRunning [record_of "{}"; None; None] 1 /\
    Delivery_Process Fixtures.rt_strict (sched ++ [Select PickMessage])
      Fixtures.delivery3
      = Some (s', ProcReturns (Some (ErrMarshal (ErrLib "unsupported type")))) /\
    dv_puts s' = [].
Proof.
  intros sched.
  assert (exists s,
    Delivery_Process Fixtures.rt_strict sched Fixtures.delivery3
      = Some (s, ProcRunning) /\
    dv_loop s = LoopRunning [record_of "{}"; None; None] 1 /\
    messages (dv s) = Some (mkChan 6 [MsgOther JNull]) /\
    dv_puts s = []) as (s & Hrun & Hloop & Hch & Hputs)
    by (eexists; split_and!; vm_compute; reflexivity).
  destruct (Process_marshal_failure_drops_buffer Fixtures.rt_strict
              Fixtures.cfg3 (dv Fixtures.delivery3) sched s 6 (MsgOther JNull)
              [] (ErrLib "unsupported type") eq_refl Hrun Hch eq_refl)
    as (s' & Hdone & Hputs' & _).
  exists s, s'. split_and!; try done. by rewrite Hputs', Hputs.
Defined.

(** Cancellation over an empty buffer: [Process] returns nil and makes no
    [PutRecordBatch] call; messages still in the channel stay there. *)
Theorem Process_cancel_empty_buffer (rt : Runtime) (config : DeliveryConfig)
    (d : Delivery) (sched : list DeliveryStep) (s : DeliverySink)
    (records : list (option FhRecord)) :
  NewDelivery rt config = Some d ->
  Delivery_Process rt sched (new_sink d) = Some (s, ProcRunning) ->
  dv_loop s = LoopRunning records 0 ->
  Delivery_Process rt (sched ++ [Select PickDone]) (new_sink d)
  = Some (set_loop LoopIdle s, ProcReturns None).
Proof.
  intros Hnew Hrun Hloop. unfold Delivery_Process in *.
  destruct (Connect rt (dv (new_sink d))); [discriminate Hrun|].
  destruct (decide (size (dv (new_sink d)) < 0)%Z); [discriminate Hrun|].
  rewrite (run_schedule_app _ _ _ _ _ (Process_step_not_running rt) Hrun).
  simpl. unfold Process_step. by rewrite Hloop.
Qed.

Lemma Process_cancel_empty_buffer_witness :
  let sched := [Accept (Fixtures.E 1); Accept (Fixtures.E 2)] in
  exists s,
    Delivery_Process Fixtures.rt0 (sched ++ [Select PickDone]) Fixtures.delivery3
      = Some (s, ProcReturns None) /\
    dv_puts s = [] /\
    messages (dv s) = Some (mkChan 6 [Fixtures.E 1; Fixtures.E 2]).
Proof.
  intros sched.
  assert (exists s records,
    Delivery_Process Fixtures.rt0 sched Fixtures.delivery3
      = Some (s, ProcRunning) /\
    dv_loop s = LoopRunning records 0 /\ dv_puts s = [] /\
    messages (dv s) = Some (mkChan 6 [Fixtures.E 1; Fixtures.E 2]))
    as (s & records & Hrun & Hloop & Hputs & Hch)
    by (eexists _, _; split_and!; vm_compute; reflexivity).
  exists (set_loop LoopIdle s). split; [|by split].
  exact (Process_cancel_empty_buffer Fixtures.rt0 Fixtures.cfg3
           (dv Fixtures.delivery3) sched s records eq_refl Hrun Hloop).
Defined.

(** ** The forwarding sink: accounting *)

Section ForwarderBooks.
Variable rt : Runtime.

Lemma submitted_snoc (h : list ForwarderStep) (a : ForwarderStep) :
  submitted (h ++ [a])
  = submitted h ++ (if a is FwdAccept _ m then [m] else []).
Proof. unfold submitted. rewrite omap_app. by destruct a. Qed.

Lemma forwarder_books_step (h : list ForwarderStep) (a : ForwarderStep)
    (s s' : ForwarderSink) (r : option ProcessResult) :
  forwarder_books h s ->
  Forwarder_step rt a s = Some (s', r) ->
  forwarder_books (h ++ [a]) s' /\ (r = None \/ r = Some (ProcReturns None)).
Proof.
  intros (Hch & Hsub & Hcount & Hposts & Hflight & Hskip) Hstep.
  unfold forwarder_books. rewrite submitted_snoc.
  unfold Forwarder_step in Hstep.
  destruct a as [ctx m| | | |err|].
  - assert (Hsend : Some (s', r)
              = match Forwarder_Send ctx m s with
                | (s1, _) :: _ => Some (s1, None)
                | [] => None
                end /\ fw_loop s <> FwdIdle).
    { by destruct (fw_loop s). }
    destruct Hsend as [Hsend Hidle].
    rewrite (Forwarder_Send_unbuffered ctx m s Hch) in Hsend.
    injection Hsend as -> ->. split; [|by left].
    destruct (receiver_parked s) eqn:Hparked; simpl.
    + unfold receiver_parked in Hparked.
      destruct (fw_loop s); try discriminate Hparked.
      rewrite !length_app. simpl. split_and!; try done; try lia.
      by apply sublist_app.
    + rewrite length_app. simpl. split_and!; try done; try lia.
      by apply sublist_inserts_r.
  - destruct (fw_loop s); try discriminate Hstep.
    rewrite Hch in Hstep. discriminate Hstep.
  - destruct (fw_loop s) as [| |m] eqn:Hloop; try discriminate Hstep.
    injection Hstep as <- <-. split; [|by left]. rewrite app_nil_r.
    unfold after_send.
    destruct (Forwarder_send rt (fw_posts s) None (fw s) m); simpl;
      split_and!; try done; lia.
  - destruct (fw_loop s) as [| |m] eqn:Hloop; try discriminate Hstep.
    destruct (fw_done s) as [err|]; [|discriminate Hstep].
    injection Hstep as <- <-. split; [|by left]. rewrite app_nil_r.
    unfold after_send.
    destruct (Forwarder_send rt (fw_posts s) (Some err) (fw s) m); simpl;
      split_and!; try done; lia.
  - assert (Hs : s' = mkForwarderSink (fw s) (fw_loop s)
                        (if fw_done s is None then Some err else fw_done s)
                        (fw_received s)
                        (fw_posts s) (fw_success s) (fw_skipped s)
                        (fw_failure s) /\ r = None).
    { destruct (fw_loop s); try discriminate Hstep; by injection Hstep as <- <-. }
    destruct Hs as [-> ->]. split; [|by left]. rewrite app_nil_r. done.
  - destruct (fw_loop s) eqn:Hloop; try discriminate Hstep.
    destruct (fw_done s) as [err|]; [|discriminate Hstep].
    injection Hstep as <- <-. split; [|by right]. rewrite app_nil_r. done.
Qed.

Lemma forwarder_books_run (sched : list ForwarderStep) :
  forall h s s' r,
    forwarder_books h s ->
    run_schedule (Forwarder_step rt) sched s = Some (s', r) ->
    (r = ProcRunning \/ r = ProcReturns None) /\
    exists h', h' `prefix_of` sched /\ forwarder_books (h ++ h') s' /\
               (r = ProcRunning -> h' = sched).
Proof.
  induction sched as [|a sched IH]; intros h s s' r Hbooks Hrun; simpl in Hrun.
  - injection Hrun as <- <-. split; [by left|]. exists [].
    by rewrite app_nil_r.
  - destruct (Forwarder_step rt a s) as [[s1 r1]|] eqn:Ha; [|done].
    destruct (forwarder_books_step h a s s1 r1 Hbooks Ha) as [Hb [->| ->]].
    + destruct (IH _ _ _ _ Hb Hrun) as [Hr (h' & Hpre & Hb' & Hall)].
      split; [done|]. exists (a :: h'). split_and!.
      * by apply prefix_cons.
      * by replace (h ++ a :: h') with ((h ++ [a]) ++ h')
          by (by rewrite <- app_assoc).
      * intros Hrun'. by rewrite (Hall Hrun').
    + injection Hrun as <- <-. split; [by right|]. exists [a].
      split_and!; [|done|done].
      apply prefix_cons, prefix_nil.
Qed.

(** The run loop of the forwarder never returns an error and never
    panics, whatever the outbound calls reply: under every schedule
    [Process] is still in its loop or has returned nil. *)
Theorem Forwarder_Process_never_fails (url : string) (f : Forwarder)
    (sched : list ForwarderStep) (s : ForwarderSink) (r : ProcessResult) :
  NewForwarder url = Some f ->
  Forwarder_Process rt sched (new_forwarder_sink f) = Some (s, r) ->
  r = ProcRunning \/ r = ProcReturns None.
Proof.
  intros Hnew Hrun. unfold Forwarder_Process in Hrun.
  eapply (forwarder_books_run sched []); [|exact Hrun].
  unfold NewForwarder in Hnew.
  destruct (String.prefix "http" url); [|discriminate Hnew].
  injection Hnew as <-. unfold forwarder_books. simpl.
  split_and!; first [done | apply sublist_nil].
Qed.

(** Every message submitted to a forwarder while [Process] runs is
    accounted for: it was handed to the run loop or counted as skipped,
    never both and never neither.  The messages the run loop received
    are submitted ones, in submission order; all but at most one, the
    one in flight, have had their outbound call, each counted once as a
    success or as a failure. *)
Theorem Forwarder_every_send_accounted (url : string) (f : Forwarder)
    (sched : list ForwarderStep) (s : ForwarderSink) :
  NewForwarder url = Some f ->
  Forwarder_Process rt sched (new_forwarder_sink f) = Some (s, ProcRunning) ->
  fw_received s `sublist_of` submitted sched /\
  Z.of_nat (length (submitted sched))
    = (Z.of_nat (length (fw_received s)) + fw_skipped s)%Z /\
  (fw_success s + fw_failure s)%Z = Z.of_nat (fw_posts s) /\
  fw_posts s <= length (fw_received s) <= S (fw_posts s).
Proof.
  intros Hnew Hrun. unfold Forwarder_Process in Hrun.
  assert (Hstart : forwarder_books []
            (mkForwarderSink (fw (new_forwarder_sink f)) FwdSelect
               (fw_done (new_forwarder_sink f))
               (fw_received (new_forwarder_sink f))
               (fw_posts (new_forwarder_sink f))
               (fw_success (new_forwarder_sink f))
               (fw_skipped (new_forwarder_sink f))
               (fw_failure (new_forwarder_sink f)))).
  { unfold NewForwarder in Hnew.
    destruct (String.prefix "http" url); [|discriminate Hnew].
    injection Hnew as <-. unfold forwarder_books. simpl.
    split_and!; first [done | apply sublist_nil]. }
  destruct (forwarder_books_run sched [] _ _ _ Hstart Hrun)
    as [_ (h' & _ & Hb & Hall)].
  rewrite (Hall eq_refl) in Hb. simpl in Hb.
  destruct Hb as (_ & Hsub & Hcount & Hposts & Hflight & _).
  split_and!; try done; destruct (fw_loop s); lia.
Qed.

End ForwarderBooks.

Lemma Forwarder_Process_never_fails_witness :
  let sched := [FwdAccept Fixtures.ctx0 (MsgOther JNull); FwdFinish;
                FwdCancel Canceled; FwdPickDone] in
  exists s r,
    Forwarder_Process Fixtures.rt0 sched Fixtures.forwarder0 = Some (s, r) /\
    fw_failure s = 1%Z /\
    (r = ProcRunning \/ r = ProcReturns None).
Proof.
  intros sched.
  assert (exists s r,
    Forwarder_Process Fixtures.rt0 sched Fixtures.forwarder0 = Some (s, r) /\
    fw_failure s = 1%Z) as (s & r & Hrun & Hfail)
    by (eexists _, _; split; vm_compute; reflexivity).
  exists s, r. split; [exact Hrun|]. split; [exact Hfail|].
  exact (Forwarder_Process_never_fails Fixtures.rt0 "http://localhost"
           (fw Fixtures.forwarder0) sched s r eq_refl Hrun).
Defined.

Lemma Forwarder_every_send_accounted_witness :
  let sched := [FwdAccept Fixtures.ctx0 (Fixtures.E 1);
                FwdAccept Fixtures.ctx0 (Fixtures.E 2); FwdFinish;
                FwdAccept Fixtures.ctx0 (Fixtures.E 3)] in
  exists s,
    Forwarder_Process Fixtures.rt0 sched Fixtures.forwarder0
      = Some (s, ProcRunning) /\
    fw_received s = [Fixtures.E 1; Fixtures.E 3] /\
    fw_skipped s = 1%Z /\
    (fw_success s + fw_failure s = 1)%Z.
Proof.
  intros sched.
  assert (exists s,
    Forwarder_Process Fixtures.rt0 sched Fixtures.forwarder0
      = Some (s, ProcRunning) /\
    fw_received s = [Fixtures.E 1; Fixtures.E 3] /\ fw_posts s = 1)
    as (s & Hrun & Hrecv & Hposts)
    by (eexists; split_and!; vm_compute; reflexivity).
  destruct (Forwarder_every_send_accounted Fixtures.rt0 "http://localhost"
              (fw Fixtures.forwarder0) sched s eq_refl Hrun)
    as (_ & Hcount & Hsum & _).
  exists s. rewrite Hrecv in Hcount. rewrite Hposts in Hsum.
  change (submitted sched) with [Fixtures.E 1; Fixtures.E 2; Fixtures.E 3]
    in Hcount.
  simpl in Hcount, Hsum. split_and!; try done. lia.
Defined.

(** ** The dispatcher: what the handlers answer and forward *)

Section HandlerAnswers.
Variable rt : Runtime.

(** An outcome of [send] in full: the event as filled, the calls made,
    and the dispatcher after them. *)
Lemma send_outcome (s : Segment) (ctx : Ctx) (m : SegmentEvent) (w : World)
    (s' : Segment) (w' : World) (r : SendResult) :
  (s', w', r) ∈ send rt s ctx m w ->
  exists m' n,
    filled_by_send rt m w m' /\
    calls w' = calls w ++ ((fun j => mkCall j ctx (MsgEvent m')) <$> seq 0 n) /\
    n <= length (destinations s) /\
    length (destinations s') = length (destinations s) /\
    projectId s' = projectId s /\
    (r = Returns None -> n = length (destinations s)) /\
    (r <> Returns None -> 0 < n).
Proof.
  intros Hin.
  apply send_inv in Hin as (m' & out & cs & Hfill & Hloop & -> & Hcalls).
  apply send_loop_spec in Hloop as (n & Hn & -> & Hlen & _ & _ & Hnil & Hpos).
  by exists m', n.
Qed.

(** The calls of the loop of [handleBatch], with their number: all the
    messages times all the destinations when the loop answers 200, at
    least one when it answers 500 or stays parked. *)
Lemma handleBatch_loop_outcome (ctx : Ctx) (writeKey pid : string)
    (batchContext : option (gmap string JValue)) (ms : list SegmentMessage) :
  forall s w s' w' resp,
    (s', w', resp)
      ∈ handleBatch_loop rt s ctx writeKey pid batchContext ms w ->
    length (destinations s') = length (destinations s) /\
    projectId s' = projectId s /\
    exists cs,
      calls w' = calls w ++ cs /\
      Forall (fun c => call_ctx c = ctx /\
                exists e, call_msg c = MsgEvent e /\ WriteKey e = writeKey /\
                          ProjectId (Message e) = pid) cs /\
      length cs <= length ms * length (destinations s) /\
      match resp with
      | Some rp =>
          (rp = mkResponse StatusOK true /\
           length cs = length ms * length (destinations s)) \/
          (rp = http_Error StatusInternalServerError /\ 1 <= length cs)
      | None => 1 <= length cs
      end.
Proof.
  induction ms as [|m ms IH]; intros s w s' w' resp Hin; simpl in Hin.
  - apply list_elem_of_singleton in Hin. injection Hin as -> -> ->.
    split_and!; try done. exists []. rewrite app_nil_r.
    split_and!; try done. by left.
  - apply list_elem_of_bind in Hin as [[[s1 w1] r1] [Hin Hsend]]. simpl in Hin.
    apply send_outcome in Hsend
      as (m' & n & Hfill & Hcalls & Hn & Hlen & Hpid & Hnil & Hpos).
    destruct Hfill as (_ & _ & _ & Hwk & Hpj & _). simpl in Hwk, Hpj.
    assert (Hhere : Forall (fun c => call_ctx c = ctx /\
                exists e, call_msg c = MsgEvent e /\ WriteKey e = writeKey /\
                          ProjectId (Message e) = pid)
              ((fun j => mkCall j ctx (MsgEvent m')) <$> seq 0 n)).
    { apply Forall_fmap, Forall_forall. intros j _. simpl. eauto. }
    assert (Hcount : length ((fun j => mkCall j ctx (MsgEvent m')) <$> seq 0 n) = n)
      by (by rewrite length_fmap, length_seq).
    destruct r1 as [[err|]|].
    + apply list_elem_of_singleton in Hin. injection Hin as -> -> ->.
      split_and!; try done. eexists. split; [exact Hcalls|].
      rewrite Hcount. split_and!; [done|simpl; lia|].
      right. split; [done|]. by apply Hpos.
    + apply IH in Hin as (Hlen' & Hpid' & cs' & Hcalls' & Hall & Hle & Hresp).
      rewrite Hlen in Hlen', Hle, Hresp. rewrite Hpid in Hpid'.
      rewrite (Hnil eq_refl) in *.
      split_and!; try done.
      exists (((fun j => mkCall j ctx (MsgEvent m')) <$>
                 seq 0 (length (destinations s))) ++ cs').
      rewrite length_app, Hcount. split_and!.
      * by rewrite Hcalls', Hcalls, app_assoc.
      * by apply Forall_app.
      * simpl. lia.
      * destruct resp as [rp|]; [|lia].
        destruct Hresp as [[-> Heq]|[-> Hge]]; [left|right]; split; try done;
          simpl; lia.
    + apply list_elem_of_singleton in Hin. injection Hin as -> -> ->.
      split_and!; try done. eexists. split; [exact Hcalls|].
      rewrite Hcount. split_and!; [done|simpl; lia|]. by apply Hpos.
Qed.

(** What an answer of [handleBatch] means.  The status is 200, 400, 401
    or 500, and the body says success exactly with 200.
    - A 200 means that the batch decoded, that the request was
      authorized, and that every message of the batch, in the order of
      the batch, went as one event to every destination, in the order of
      the destinations, with nothing else sent: the event of a message
      carries the fields of that message, the write key of the request,
      its project id and the context of the batch.
    - A 400 means that the body did not decode, a 401 that the request
      has no basic authorization or that the write key has no project;
      in both cases no destination was called.
    - A 500 means that the events of the first messages of the batch
      went out, in order, each but the last to every destination, and
      that the last reached at least one destination: the handler stopped
      there and sent nothing of the messages that follow. *)
Theorem handleBatch_answer_meaning (s : Segment) (r : Request rt) (w : World)
    (s' : Segment) (w' : World) (rp : Response) :
  (s', w', Some rp) ∈ handleBatch rt s r w ->
  exists cs,
    calls w' = calls w ++ cs /\
    ((rp = mkResponse StatusOK true /\
      exists batch events writeKey pw,
        json_DecodeBatch rt (req_Body r) = Some batch /\
        BasicAuth r = Some (writeKey, pw) /\
        projectId s writeKey <> EmptyString /\
        Forall2 (fun m e =>
                   WriteKey e = writeKey /\
                   ProjectId (Message e) = projectId s writeKey /\
                   Context (Message e) = batch_Context batch /\
                   carries_message m e)
          (Messages batch) events /\
        cs = batch_calls (contextTimeout rt r)
               ((fun e => (e, length (destinations s))) <$> events) /\
        length cs = length (Messages batch) * length (destinations s)) \/
     (rp = http_Error StatusBadRequest /\ cs = [] /\
      json_DecodeBatch rt (req_Body r) = None) \/
     (rp = http_Error StatusUnauthorized /\ cs = [] /\
      (BasicAuth r = None \/
       exists writeKey pw, BasicAuth r = Some (writeKey, pw) /\
                           projectId s writeKey = EmptyString)) \/
     (rp = http_Error StatusInternalServerError /\
      exists batch sent en,
        json_DecodeBatch rt (req_Body r) = Some batch /\
        cs = batch_calls (contextTimeout rt r) sent /\
        length sent <= length (Messages batch) /\
        Forall2 (fun m en =>
                   Context (Message en.1) = batch_Context batch /\
                   carries_message m en.1 /\
                   en.2 <= length (destinations s))
          (take (length sent) (Messages batch)) sent /\
        (forall k en', sent !! k = Some en' -> S k < length sent ->
           en'.2 = length (destinations s)) /\
        last sent = Some en /\ 0 < en.2 /\
        1 <= length cs)).
Proof.
  unfold handleBatch. intros Hin.
  destruct (json_DecodeBatch rt (req_Body r)) as [batch|] eqn:Hdec.
  - destruct (BasicAuth r) as [[writeKey pw]|] eqn:Hauth.
    + destruct (decide (projectId s writeKey = EmptyString)) as [Hpid|Hne].
      * apply list_elem_of_singleton in Hin. injection Hin as -> -> <-.
        exists []. rewrite app_nil_r. split; [done|]. right. right. left.
        split_and!; try done. right. by exists writeKey, pw.
      * pose proof (handleBatch_loop_outcome _ _ _ _ _ _ _ _ _ _ Hin)
          as (_ & _ & cs0 & Hcalls0 & _ & _ & Hcount).
        apply handleBatch_loop_trace in Hin
          as (sent & Hcalls & Hle & Hall & Hmid & Hok & Hbad).
        exists (batch_calls (contextTimeout rt r) sent). split; [done|].
        assert (cs0 = batch_calls (contextTimeout rt r) sent) as ->.
        { rewrite Hcalls in Hcalls0. by apply app_inv_head in Hcalls0. }
        destruct Hcount as [[-> Hlen]|[-> Hge]].
        -- left. split; [done|]. destruct (Hok eq_refl) as [Hall' Hfull].
           rewrite Hall', firstn_all in Hall.
           exists batch, (fst <$> sent), writeKey, pw. split_and!; try done.
           ++ apply Forall2_fmap_r. eapply Forall2_impl; [exact Hall|].
              intros m en (? & ? & ? & ? & _). by split_and!.
           ++ f_equal. rewrite <- list_fmap_compose.
              clear -Hfull. induction Hfull as [|[e n] sent Hn _ IH]; [done|].
              simpl in Hn. subst n. rewrite fmap_cons. f_equal. exact IH.
        -- right. right. right. split; [done|].
           destruct Hbad as (_ & en & Hlast & Hen); [done|].
           exists batch, sent, en. split_and!; try done.
           eapply Forall2_impl; [exact Hall|].
           intros m en' (_ & _ & ? & ? & ?). by split_and!.
    + apply list_elem_of_singleton in Hin. injection Hin as -> -> <-.
      exists []. rewrite app_nil_r. split; [done|]. right. right. left.
      split_and!; try done. by left.
  - apply list_elem_of_singleton in Hin. injection Hin as -> -> <-.
    exists []. rewrite app_nil_r. split; [done|]. right. by left.
Qed.


(** No event reaches a destination unresolved: every [Send] that
    [handleBatch] or [handleEvent] makes carries an event whose project
    id is not empty and is the one the lookup gives for the write key of
    that event, and all the calls of one request share the context built
    by [contextTimeout]. *)
Theorem handlers_forward_resolved_events (s : Segment) (r : Request rt)
    (w : World) (s' : Segment) (w' : World) (resp : option Response) :
  (s', w', resp) ∈ handleBatch rt s r w ++ handleEvent rt s r w ->
  exists cs,
    calls w' = calls w ++ cs /\
    Forall (fun c =>
              call_ctx c = contextTimeout rt r /\
              exists e, call_msg c = MsgEvent e /\
                ProjectId (Message e) = projectId s (WriteKey e) /\
                ProjectId (Message e) <> EmptyString) cs.
Proof.
  intros Hin. apply elem_of_app in Hin as [Hin|Hin].
  - unfold handleBatch in Hin.
    assert (Hnone : forall x, (s', w', resp) ∈ [(s, w, x)] ->
      exists cs, calls w' = calls w ++ cs /\
        Forall (fun c => call_ctx c = contextTimeout rt r /\
                  exists e, call_msg c = MsgEvent e /\
                    ProjectId (Message e) = projectId s (WriteKey e) /\
                    ProjectId (Message e) <> EmptyString) cs).
    { intros x H. apply list_elem_of_singleton in H. injection H as -> -> _.
      exists []. by rewrite app_nil_r. }
    destruct (json_DecodeBatch rt (req_Body r)) as [batch|]; [|by eapply Hnone].
    destruct (BasicAuth r) as [[writeKey pw]|]; [|by eapply Hnone].
    destruct (decide (projectId s writeKey = EmptyString)) as [|Hne];
      [by eapply Hnone|].
    apply handleBatch_loop_outcome in Hin as (_ & _ & cs & Hcalls & Hall & _).
    exists cs. split; [done|]. eapply Forall_impl; [exact Hall|].
    intros c (Hctx & e & Hmsg & Hwk & Hpid). split; [done|].
    exists e. rewrite Hwk, Hpid. done.
  - unfold handleEvent in Hin.
    assert (Hbad : (s', w', resp) ∈ [(s, w, Some (http_Error StatusBadRequest))] ->
      exists cs, calls w' = calls w ++ cs /\
        Forall (fun c => call_ctx c = contextTimeout rt r /\
                  exists e, call_msg c = MsgEvent e /\
                    ProjectId (Message e) = projectId s (WriteKey e) /\
                    ProjectId (Message e) <> EmptyString) cs).
    { intros H. apply list_elem_of_singleton in H. injection H as -> -> _.
      exists []. by rewrite app_nil_r. }
    destruct (if decide (Method r = "GET")
              then base64_DecodeString rt (FormValue r "data")
              else Some (req_Body r)) as [body|]; [|by apply Hbad].
    destruct (json_DecodeEvent rt body _) as [event|]; [|by apply Hbad].
    destruct (decide (ProjectId (Message _) = EmptyString)) as [|Hne];
      [by apply Hbad|].
    apply list_elem_of_bind in Hin as [[[s1 w1] r1] [Hin Hsend]]. simpl in Hin.
    apply send_outcome in Hsend as (m' & n & Hfill & Hcalls & _).
    destruct Hfill as (_ & _ & _ & Hwk & Hpj & _). simpl in Hwk, Hpj, Hne.
    exists ((fun j => mkCall j (contextTimeout rt r) (MsgEvent m')) <$> seq 0 n).
    assert (w' = w1) as ->.
    { destruct r1 as [[err|]|]; apply list_elem_of_singleton in Hin;
        by injection Hin as _ ->. }
    split; [done|]. apply Forall_fmap, Forall_forall. intros j _. simpl.
    split; [done|]. exists m'. rewrite Hwk, Hpj. done.
Qed.

(** [send] leaves an id and a timestamp that the caller supplied alone:
    it reads the clock once, for [SentAt], draws no identifier, and every
    destination it calls gets the event with only [SentAt] replaced. *)
Theorem send_keeps_supplied_fields (s : Segment) (ctx : Ctx)
    (m : SegmentEvent) (w : World) (s' : Segment) (w' : World)
    (r : SendResult) :
  Timestamp (Message m) <> time_zero ->
  MessageId (Message m) <> EmptyString ->
  (s', w', r) ∈ send rt s ctx m w ->
  clock_reads w' = S (clock_reads w) /\
  uuid_reads w' = uuid_reads w /\
  exists cs,
    calls w' = calls w ++ cs /\
    Forall (fun c => call_msg c
                     = MsgEvent (set_SentAt (time_Now rt (clock_reads w)) m)) cs.
Proof.
  intros Hts Hid Hin. unfold send in Hin.
  rewrite decide_False in Hin by done.
  destruct w as [cr ur cl]. simpl in Hin.
  rewrite decide_False in Hin by done.
  apply list_elem_of_fmap in Hin as [[[out cs] r0] [Heq Hin]].
  simpl in Heq. injection Heq as -> -> ->.
  apply send_loop_spec in Hin as (n & _ & -> & _).
  simpl. split_and!; try done. eexists. split; [reflexivity|].
  apply Forall_fmap, Forall_forall. by intros.
Qed.

End HandlerAnswers.

Lemma Process_connect_failure_witness :
  Delivery_Process Fixtures.rt_down Fixtures.sched_timer Fixtures.delivery3
  = Some (Fixtures.delivery3,
          ProcReturns (Some (ErrStream (ErrLib "connection refused")))) /\
  Delivery_Send Fixtures.rt_down Fixtures.ctx0 (Fixtures.E 1) Fixtures.delivery3
  = [(Fixtures.delivery3,
      Returns (Some (ErrNotReady "test-stream" "http://localhost:4573")))].
Proof.
  destruct (Process_connect_failure Fixtures.rt_down Fixtures.delivery3
              (ErrStream (ErrLib "connection refused")) Fixtures.sched_timer
              eq_refl eq_refl) as [Hrun Hsend].
  split; [exact Hrun|apply Hsend].
Defined.

(** At the batch of two messages and the dispatcher with the forwarder
    alone, answered with 200: the two calls are the events of the two
    messages, in their order. *)
Lemma handleBatch_answer_meaning_witness :
  exists s' w' e1 e2,
    (s', w', Some (mkResponse StatusOK true))
      ∈ handleBatch Fixtures.rt0 Fixtures.seg1
          (Fixtures.batch_request "key" None) world0 /\
    calls w' = [mkCall 0 Fixtures.ctx0 (MsgEvent e1);
                mkCall 0 Fixtures.ctx0 (MsgEvent e2)] /\
    carries_message (Fixtures.msg_with "m1" (Some Fixtures.own)) e1 /\
    carries_message (Fixtures.msg_with "m2" None) e2.
Proof.
  assert (exists s' w',
    (s', w', Some (mkResponse StatusOK true))
      ∈ handleBatch Fixtures.rt0 Fixtures.seg1
          (Fixtures.batch_request "key" None) world0)
    as (s' & w' & Hin)
    by (eexists _, _; vm_compute; apply list_elem_of_here).
  destruct (handleBatch_answer_meaning Fixtures.rt0 Fixtures.seg1
              (Fixtures.batch_request "key" None) world0 s' w' _ Hin)
    as (cs & Hcalls
        & [[_ (batch & events & wk & pw & Hdec & _ & _ & Hall & -> & _)]
          |[[H _]|[[H _]|[H _]]]]);
    try discriminate H.
  injection Hdec as <-.
  apply Forall2_cons_inv_l in Hall as (e1 & events1 & (_ & _ & _ & H1) & Hall & ->).
  apply Forall2_cons_inv_l in Hall as (e2 & events2 & (_ & _ & _ & H2) & Hall & ->).
  apply Forall2_nil_inv_l in Hall as ->.
  by exists s', w', e1, e2.
Defined.


Lemma handlers_forward_resolved_events_witness :
  exists s' w',
    (s', w', Some (mkResponse StatusOK true))
      ∈ handleBatch Fixtures.rt0 Fixtures.seg1
          (Fixtures.batch_request "key" None) world0 ++
        handleEvent Fixtures.rt0 Fixtures.seg1
          (Fixtures.batch_request "key" None) world0 /\
    Forall (fun c => exists e, call_msg c = MsgEvent e /\
                       ProjectId (Message e) = "project") (calls w').
Proof.
  assert (exists s' w',
    (s', w', Some (mkResponse StatusOK true))
      ∈ handleBatch Fixtures.rt0 Fixtures.seg1
          (Fixtures.batch_request "key" None) world0 ++
        handleEvent Fixtures.rt0 Fixtures.seg1
          (Fixtures.batch_request "key" None) world0)
    as (s' & w' & Hin)
    by (eexists _, _; vm_compute; apply list_elem_of_here).
  exists s', w'. split; [exact Hin|].
  destruct (handlers_forward_resolved_events Fixtures.rt0 Fixtures.seg1
              (Fixtures.batch_request "key" None) world0 s' w' _ Hin)
    as (cs & Hcalls & Hall).
  simpl in Hcalls. rewrite Hcalls.
  eapply Forall_impl; [exact Hall|].
  intros c (_ & e & Hmsg & Hpid & Hne). exists e. split; [done|].
  rewrite Hpid in *. unfold Fixtures.seg1, NewSegment, Fixtures.pid in *.
  simpl in *. by destruct (decide (WriteKey e = "key")).
Defined.

Lemma send_keeps_supplied_fields_witness :
  let m := mkSegmentEvent "key" (Fixtures.msg_with "m1" None) in
  exists s' w',
    (s', w', Returns None)
      ∈ send Fixtures.rt0 Fixtures.seg1 Fixtures.ctx0 m world0 /\
    call_msg <$> calls w' = [MsgEvent (set_SentAt 1000%Z m)] /\
    uuid_reads w' = 0.
Proof.
  intros m.
  assert (exists s' w',
    (s', w', Returns None)
      ∈ send Fixtures.rt0 Fixtures.seg1 Fixtures.ctx0 m world0
    /\ length (calls w') = 1) as (s' & w' & Hin & Hlen)
    by (eexists _, _; split; [vm_compute; apply list_elem_of_here|reflexivity]).
  exists s', w'. split; [exact Hin|].
  destruct (send_keeps_supplied_fields Fixtures.rt0 Fixtures.seg1 Fixtures.ctx0
              m world0 s' w' _ ltac:(discriminate) ltac:(discriminate) Hin)
    as (_ & Huuid & cs & Hcalls & Hall).
  split; [|exact Huuid]. simpl in Hcalls. rewrite Hcalls in *.
  destruct cs as [|c [|c' cs]]; try discriminate Hlen.
  apply Forall_inv in Hall. simpl. by rewrite Hall.
Defined.

(** ** The supervisor: retry until success *)

Section RetryUntilSuccess.
Context {D : Type} {impl : Destination D}.
Variables (P : nat -> D -> Prop) (b : Backo) (scheds : nat -> @Schedule D impl).
Variable k : nat.
Hypothesis fails_before :
  forall i st, i < k -> P i st ->
    exists st' e, Process (scheds i) st = Some (st', ProcReturns (Some e))
                  /\ P (S i) st'.
Hypothesis succeeds_at :
  forall st, P k st -> exists st', Process (scheds k) st = Some (st', ProcReturns None).

Lemma Run_loop_until_success (j : nat) :
  forall n i err st,
    i + j = k -> j < n -> P i st ->
    exists st',
      RunBacko.Run_loop b scheds n i err st
      = Some (st', failed_turns b i j ++ [EvProcess k], TaskReturns).
Proof using fails_before succeeds_at.
  induction j as [|j IH]; intros n i err st Hk Hn Hst.
  - assert (i = k) as -> by lia. destruct n as [|n]; [lia|]. simpl.
    destruct (succeeds_at st Hst) as (st' & ->). by exists st'.
  - destruct n as [|n]; [lia|]. simpl.
    destruct (fails_before i st ltac:(lia) Hst) as (st1 & e & -> & Hst1).
    destruct (IH n (S i) (Some e) st1 ltac:(lia) ltac:(lia) Hst1) as (st' & ->).
    by exists st'.
Qed.

End RetryUntilSuccess.

(** The goroutine of the revision of [Run] with the backoff stops
    retrying at the first success: when the attempts before the [k]-th
    fail and the [k]-th, one of the ten allowed, returns nil, it calls
    [Process] [k + 1] times, sleeps the backoff delay after each of the
    [k] failures, and returns without [Logger.Fatal]. *)
Theorem Run_retries_until_success {D : Type} (impl : Destination D)
    (P : nat -> D -> Prop) (pid : string -> string) (dests : list Dest)
    (scheds : nat -> @Schedule D impl) (k : nat) (st : D) :
  k < 10 ->
  P 0 st ->
  (forall i st, i < k -> P i st ->
     exists st' e, Process (scheds i) st = Some (st', ProcReturns (Some e))
                   /\ P (S i) st') ->
  (forall st, P k st ->
     exists st', Process (scheds k) st = Some (st', ProcReturns None)) ->
  exists st',
    RunBacko.Run_task (NewSegment pid dests) (mkDest D impl st) scheds
    = Some (mkDest D impl st',
            flat_map (fun j => [EvProcess j; EvSleep (Duration DefaultBacko j)])
              (seq 0 k) ++ [EvProcess k],
            TaskReturns).
Proof.
  intros Hk Hst Hfail Hok.
  destruct (Run_loop_until_success P DefaultBacko scheds k Hfail Hok k 10 0 None
              st eq_refl Hk Hst) as (st' & Hrun).
  exists st'. unfold RunBacko.Run_task.
  change (RunBacko.Run_loop (backo (NewSegment pid dests)) scheds
            (backoRetry (NewSegment pid dests)) 0 None
            (dest_state (mkDest D impl st)))
    with (RunBacko.Run_loop DefaultBacko scheds 10 0 None st).
  by rewrite Hrun.
Qed.

(** At a firehose sink whose first run ends on a message that does not
    marshal and whose second run is cancelled at once: one failed
    attempt, one sleep of 100 ms, one successful attempt. *)
Lemma Run_retries_until_success_witness :
  let scheds := fun i : nat =>
    if decide (i = 0)
    then [Accept (MsgOther JNull); Select PickMessage]
    else [Select PickDone] in
  exists d,
    RunBacko.Run_task (NewSegment Fixtures.pid [])
      (mkDest DeliverySink (Delivery_Destination Fixtures.rt_strict)
         Fixtures.delivery3) scheds
    = Some (d, [EvProcess 0; EvSleep 100000000; EvProcess 1], TaskReturns).
Proof.
  intros scheds.
  assert (exists s1 e s2,
    Delivery_Process Fixtures.rt_strict (scheds 0) Fixtures.delivery3
      = Some (s1, ProcReturns (Some e)) /\
    Delivery_Process Fixtures.rt_strict (scheds 1) s1
      = Some (s2, ProcReturns None)) as (s1 & e & s2 & H0 & H1)
    by (eexists _, _, _; split; vm_compute; reflexivity).
  destruct (Run_retries_until_success (Delivery_Destination Fixtures.rt_strict)
              (fun i st => match i with
                           | 0 => st = Fixtures.delivery3
                           | _ => st = s1
                           end)
              Fixtures.pid [] scheds 1 Fixtures.delivery3 ltac:(lia) eq_refl)
    as (st' & Hrun).
  - intros i st Hi Hst. assert (i = 0) as -> by lia. subst st.
    by exists s1, e.
  - intros st ->. by exists s2.
  - by exists (mkDest DeliverySink (Delivery_Destination Fixtures.rt_strict) st').
Defined.
